(** * InsightAgent front end: task store, application store and WebSocket service

    A shallow embedding of the TypeScript state containers of the InsightAgent
    front end (the zustand stores [useTaskStore] and [useAppStore], and the
    [WebSocketService] class of [services/websocket.ts]) together with the
    properties of their operations.

    Conventions of the embedding:
    - a zustand [set (state => partial)] is a pure function on the store
      record that replaces the fields of [partial];
    - [new Date().toISOString()] and [Date.now()] are inputs of the
      operation that reads them ([now]);
    - a JavaScript [number] that the code only stores and compares
      (progress, durations, limits, timestamps) is an integer of [Z]; a
      number that the code computes by division is a binary64 [float];
    - [Map<string, V>] is a [gmap string V]; an array is a [list]. *)

From stdpp Require Import gmap strings list fin_maps sorting pretty.
From Stdlib Require Import Floats.PrimFloat.

Local Open Scope Z_scope.

(** ** Types ([types/index.ts]) *)

Inductive TaskStatus := QUEUED | RUNNING | COMPLETED | FAILED | CANCELLED.

#[global] Instance TaskStatus_eq_dec : EqDecision TaskStatus.
Proof. solve_decision. Defined.

Inductive LogLevel := DEBUG | INFO | WARNING | ERROR.

#[global] Instance LogLevel_eq_dec : EqDecision LogLevel.
Proof. solve_decision. Defined.

(** The terminal states of the specification's task state machine. *)
Definition terminal (st : TaskStatus) : bool :=
  match st with
  | COMPLETED | FAILED | CANCELLED => true
  | QUEUED | RUNNING => false
  end.

(** The transitions the specification's state machine allows. *)
Definition allowed_transition (old new : TaskStatus) : bool :=
  match old, new with
  | QUEUED, RUNNING
  | RUNNING, COMPLETED
  | RUNNING, FAILED
  | QUEUED, CANCELLED
  | RUNNING, CANCELLED => true
  | _, _ => false
  end.

Module TaskLog.
Record t := mk {
  id : string;
  task_id : string;
  level : LogLevel;
  message : string;
  step : option string;
  created_at : string
}.
End TaskLog.

Module MarketAnalysis.
Record t := mk {
  market_size : string;
  target_audience : string;
  competitive_landscape : string;
  market_trends : string
}.
End MarketAnalysis.

Module ProductAnalysis.
Record t := mk {
  strengths : list string;
  weaknesses : list string;
  opportunities : list string;
  threats : list string
}.
End ProductAnalysis.

Module Recommendations.
Record t := mk {
  short_term : list string;
  medium_term : list string;
  long_term : list string
}.
End Recommendations.

Module Chart.
(** [data : any] is kept as its serialised text. *)
Record t := mk {
  type : string;
  title : string;
  data : string
}.
End Chart.

Module AnalysisResult.
Record t := mk {
  id : string;
  task_id : string;
  market_analysis : MarketAnalysis.t;
  product_analysis : ProductAnalysis.t;
  recommendations : Recommendations.t;
  data_visualization : list Chart.t;
  created_at : string
}.
End AnalysisResult.

Module Task.
Record t := mk {
  id : string;
  product_name : string;
  status : TaskStatus;
  progress : Z;
  created_at : string;
  updated_at : string;
  completed_at : option string;
  user_id : string;
  result : option AnalysisResult.t;
  logs : option (list TaskLog.t)
}.

(** [{ ...task, status, updated_at }] *)
Definition with_status (st : TaskStatus) (now : string) (task : t) : t :=
  mk (id task) (product_name task) st (progress task) (created_at task)
     now (completed_at task) (user_id task) (result task) (logs task).

(** [{ ...task, progress, updated_at }] *)
Definition with_progress (p : Z) (now : string) (task : t) : t :=
  mk (id task) (product_name task) (status task) p (created_at task)
     now (completed_at task) (user_id task) (result task) (logs task).

(** [{ ...task, result, updated_at }] *)
Definition with_result (r : AnalysisResult.t) (now : string) (task : t) : t :=
  mk (id task) (product_name task) (status task) (progress task)
     (created_at task) now (completed_at task) (user_id task) (Some r)
     (logs task).
End Task.

Module Partial.
(** [Partial<Task>], the argument of [updateTask]: every key of a task may
    be absent.  A key that is present carries a value of the type of the
    field; for the optional fields of a task ([completed_at], [result],
    [logs]) a present key may also carry [undefined]. *)
Record t := mk {
  id : option string;
  product_name : option string;
  status : option TaskStatus;
  progress : option Z;
  created_at : option string;
  updated_at : option string;
  completed_at : option (option string);
  user_id : option string;
  result : option (option AnalysisResult.t);
  logs : option (option (list TaskLog.t))
}.

Definition empty : t := mk None None None None None None None None None None.

(** [{ ...task, ...updates }]: a key of [updates] wins over the task's. *)
Definition apply (updates : t) (task : Task.t) : Task.t :=
  Task.mk (default (Task.id task) (id updates))
          (default (Task.product_name task) (product_name updates))
          (default (Task.status task) (status updates))
          (default (Task.progress task) (progress updates))
          (default (Task.created_at task) (created_at updates))
          (default (Task.updated_at task) (updated_at updates))
          (default (Task.completed_at task) (completed_at updates))
          (default (Task.user_id task) (user_id updates))
          (default (Task.result task) (result updates))
          (default (Task.logs task) (logs updates)).

(** The key of the later of two objects spread one after the other. *)
Definition later {A} (first second : option A) : option A :=
  match second with
  | Some _ => second
  | None => first
  end.

(** [{ ...first, ...second }] *)
Definition merge (first second : t) : t :=
  mk (later (id first) (id second))
     (later (product_name first) (product_name second))
     (later (status first) (status second))
     (later (progress first) (progress second))
     (later (created_at first) (created_at second))
     (later (updated_at first) (updated_at second))
     (later (completed_at first) (completed_at second))
     (later (user_id first) (user_id second))
     (later (result first) (result second))
     (later (logs first) (logs second)).
End Partial.

(** ** Array primitives of the JavaScript runtime *)

(** [arr.slice(0, end)] for an integral [end]: a negative [end] counts from
    the back of the array, and the result is clipped to the array. *)
Definition slice0 {A} (l : list A) (end_ : Z) : list A :=
  let len := Z.of_nat (length l) in
  let final := if decide (end_ < 0) then Z.max (len + end_) 0
               else Z.min end_ len in
  take (Z.to_nat final) l.

(** [arr.sort(cmp)]: the sort of the language is stable, and [cmp a b <= 0]
    keeps [a] in front of [b].  Insertion from the right is the stable sort
    written as a structural recursion: for a comparator that is consistent
    on the array it returns what every sort of the language returns.  For a
    comparator that is not, the language leaves the order to the engine;
    what is read off this definition is then either independent of the
    order, or about an array in which every element already compares as
    not behind its successor, which the engines leave as it is. *)
Fixpoint insert_by {A} (cmp : A → A → Z) (x : A) (l : list A) : list A :=
  match l with
  | [] => [x]
  | y :: l' => if decide (cmp x y ≤ 0) then x :: l else y :: insert_by cmp x l'
  end.

Definition sort_by {A} (cmp : A → A → Z) (l : list A) : list A :=
  foldr (insert_by cmp) [] l.

(** [arr.indexOf(x)]: the first index holding [x], or [-1]. *)
Fixpoint indexOf_from {A} `{EqDecision A} (x : A) (l : list A) (k : Z) : Z :=
  match l with
  | [] => -1
  | y :: l' => if decide (y = x) then k else indexOf_from x l' (k + 1)
  end.

Definition indexOf {A} `{EqDecision A} (x : A) (l : list A) : Z :=
  indexOf_from x l 0.

(** ** The task store ([store/taskStore.ts]) *)

Module TaskStore.

Record TaskState := mkState {
  tasks : list Task.t;
  currentTask : option Task.t;
  taskLogs : gmap string (list TaskLog.t)
}.

Definition initialState : TaskState := mkState [] None ∅.

Definition setTasks (ts : list Task.t) (s : TaskState) : TaskState :=
  mkState ts (currentTask s) (taskLogs s).

Definition addTask (task : Task.t) (s : TaskState) : TaskState :=
  mkState (task :: tasks s) (currentTask s) (taskLogs s).

(** [tasks.filter(task => task.id !== taskId)] *)
Definition removeTask (taskId : string) (s : TaskState) : TaskState :=
  mkState (filter (λ task, Task.id task ≠ taskId) (tasks s))
          (currentTask s) (taskLogs s).

Definition setCurrentTask (task : option Task.t) (s : TaskState) : TaskState :=
  mkState (tasks s) task (taskLogs s).

(** [tasks.find(task => task.id === taskId) || null] *)
Definition getTaskById (taskId : string) (s : TaskState) : option Task.t :=
  list_find (λ task, Task.id task = taskId) (tasks s) ≫= λ '(_, task), Some task.

(** [taskLogs.get(taskId) || []]: an array is truthy, so the default is
    taken only for an absent key. *)
Definition getTaskLogs (taskId : string) (s : TaskState) : list TaskLog.t :=
  default [] (taskLogs s !! taskId).

(** [newLogs.set(taskId, [...existingLogs, log])] on a copy of the map. *)
Definition addTaskLog (taskId : string) (log : TaskLog.t) (s : TaskState)
  : TaskState :=
  let existingLogs := default [] (taskLogs s !! taskId) in
  mkState (tasks s) (currentTask s)
          (<[taskId := existingLogs ++ [log]]> (taskLogs s)).

(** A run of [addTaskLog] calls, oldest first. *)
Definition addTaskLogs (entries : list (string * TaskLog.t)) (s : TaskState)
  : TaskState :=
  foldl (λ acc e, addTaskLog e.1 e.2 acc) s entries.

Definition clearTaskLogs (taskId : string) (s : TaskState) : TaskState :=
  mkState (tasks s) (currentTask s) (delete taskId (taskLogs s)).

(** The body of the [map] callback of the three update operations. *)
Definition on_task (taskId : string) (f : Task.t → Task.t) (task : Task.t)
  : Task.t :=
  if decide (Task.id task = taskId) then f task else task.

Definition updateTaskStatus (taskId : string) (status : TaskStatus)
    (now : string) (s : TaskState) : TaskState :=
  mkState (on_task taskId (Task.with_status status now) <$> tasks s)
          (currentTask s) (taskLogs s).

Definition updateTaskProgress (taskId : string) (progress : Z)
    (now : string) (s : TaskState) : TaskState :=
  mkState (on_task taskId (Task.with_progress progress now) <$> tasks s)
          (currentTask s) (taskLogs s).

Definition updateTaskResult (taskId : string) (result : AnalysisResult.t)
    (now : string) (s : TaskState) : TaskState :=
  mkState (on_task taskId (Task.with_result result now) <$> tasks s)
          (currentTask s) (taskLogs s).

Definition getTasksByStatus (status : TaskStatus) (s : TaskState)
  : list Task.t :=
  filter (λ task, Task.status task = status) (tasks s).



Section Recent.
(** [new Date(str).getTime()]: the parsed instant in milliseconds, or
    [None] for [NaN] when the string is not a date. *)
Variable getTime : string → option Z.

(** The comparator of [getRecentTasks]; a [NaN] difference is read as
    [+0] by [sort]. *)
Definition compareCreated (a b : Task.t) : Z :=
  match getTime (Task.created_at b), getTime (Task.created_at a) with
  | Some tb, Some ta => tb - ta
  | _, _ => 0
  end.

(** [state.tasks.sort(...).slice(0, limit)] with [limit = 10] when the
    argument is not given.  [sort] works in place, so the array held by
    the store is left sorted as well: the operation returns the store
    after the call next to its result. *)
Definition getRecentTasks (limit : option Z) (s : TaskState)
  : TaskState * list Task.t :=
  let sorted := sort_by compareCreated (tasks s) in
  (mkState sorted (currentTask s) (taskLogs s),
   slice0 sorted (default 10 limit)).
End Recent.

(** *** The task invariants of the specification, read on one call *)

(** Progress does not go down on a RUNNING task and does not change on a
    terminal one, at every position of the task list. *)
Definition progress_guarded (taskId : string) (progress : Z) (now : string)
    (s : TaskState) : Prop :=
  ∀ i t t',
    tasks s !! i = Some t →
    tasks (updateTaskProgress taskId progress now s) !! i = Some t' →
    (Task.status t = RUNNING → Task.progress t ≤ Task.progress t') ∧
    (terminal (Task.status t) = true → Task.progress t' = Task.progress t).

(** A status changes along an arrow of the state machine or not at all. *)
Definition status_guarded (taskId : string) (status : TaskStatus)
    (now : string) (s : TaskState) : Prop :=
  ∀ i t t',
    tasks s !! i = Some t →
    tasks (updateTaskStatus taskId status now s) !! i = Some t' →
    Task.status t' = Task.status t ∨
    allowed_transition (Task.status t) (Task.status t') = true.

(** A result is attached only on the step from RUNNING to COMPLETED, and
    the result field is otherwise left as it was. *)
Definition result_guarded (taskId : string) (result : AnalysisResult.t)
    (now : string) (s : TaskState) : Prop :=
  ∀ i t t',
    tasks s !! i = Some t →
    tasks (updateTaskResult taskId result now s) !! i = Some t' →
    (Task.status t = RUNNING ∧ Task.status t' = COMPLETED ∧
     Task.result t' = Some result) ∨
    Task.result t' = Task.result t.

(** Deleting a RUNNING task is refused (the task stays in the store);
    deleting any other task takes out that task and nothing else. *)
Definition delete_guarded (taskId : string) (s : TaskState) : Prop :=
  ∀ t, t ∈ tasks s → Task.id t = taskId →
    (Task.status t = RUNNING → t ∈ tasks (removeTask taskId s)) ∧
    (Task.status t ≠ RUNNING →
     (t ∉ tasks (removeTask taskId s)) ∧
     (∀ t', t' ∈ tasks s → t' ≠ t → t' ∈ tasks (removeTask taskId s))).

(** The creation date of the task parses. *)
Definition dated (getTime : string → option Z) (t : Task.t) : Prop :=
  is_Some (getTime (Task.created_at t)).

(** Most recent first: the creation instants parse and go down. *)
Definition recent_first (getTime : string → option Z) (a b : Task.t)
  : Prop :=
  match getTime (Task.created_at a), getTime (Task.created_at b) with
  | Some ta, Some tb => tb ≤ ta
  | _, _ => False
  end.

(** Not older, as far as the creation instants are known. *)
Definition not_older (getTime : string → option Z) (a b : Task.t) : Prop :=
  ∀ ta tb, getTime (Task.created_at a) = Some ta →
           getTime (Task.created_at b) = Some tb → tb ≤ ta.

(** The tasks come most recent first and cut to the limit: the result,
    followed by the tasks left out, is the task list in an order in which
    no task stands in front of a more recent one, and the result has the
    length of the limit (10 when none is given) or holds all tasks. *)
Definition recent_first_truncated (getTime : string → option Z)
    (limit : option Z) (s : TaskState) : Prop :=
  ∃ rest,
    (getRecentTasks getTime limit s).2 ++ rest ≡ₚ tasks s ∧
    (∀ i j a b, (i < j)%nat →
       ((getRecentTasks getTime limit s).2 ++ rest) !! i = Some a →
       ((getRecentTasks getTime limit s).2 ++ rest) !! j = Some b →
       not_older getTime a b) ∧
    (0 ≤ default 10 limit →
     length (getRecentTasks getTime limit s).2 =
       Nat.min (Z.to_nat (default 10 limit)) (length (tasks s))).

(** *** The remaining operations of the task store *)

(** [updateTask]: [{ ...task, ...updates }] on the tasks with the id. *)
Definition updateTask (taskId : string) (updates : Partial.t) (s : TaskState)
  : TaskState :=
  mkState (on_task taskId (Partial.apply updates) <$> tasks s)
          (currentTask s) (taskLogs s).

Definition reset (s : TaskState) : TaskState := initialState.

(** The number that a count is: an array length is far below [2^53], so
    the doubling and adding here are exact. *)
Fixpoint float_of_positive (p : positive) : float :=
  match p with
  | xH => 1%float
  | xO q => PrimFloat.mul 2 (float_of_positive q)
  | xI q => PrimFloat.add (PrimFloat.mul 2 (float_of_positive q)) 1
  end.

Definition float_of_nat (n : nat) : float :=
  match N.of_nat n with
  | N0 => 0%float
  | Npos p => float_of_positive p
  end.

Record TaskStats := mkStats {
  total : nat;
  completed : nat;
  running : nat;
  failed : nat;
  pending : nat;
  completionRate : float
}.

Definition getTaskStats (s : TaskState) : TaskStats :=
  let total := length (tasks s) in
  let completed :=
    length (filter (λ task, Task.status task = COMPLETED) (tasks s)) in
  let running :=
    length (filter (λ task, Task.status task = RUNNING) (tasks s)) in
  let failed :=
    length (filter (λ task, Task.status task = FAILED) (tasks s)) in
  let pending :=
    length (filter (λ task, Task.status task = QUEUED) (tasks s)) in
  mkStats total completed running failed pending
          (if decide (0 < total)%nat
           then PrimFloat.mul
                  (PrimFloat.div (float_of_nat completed) (float_of_nat total))
                  100
           else 0%float).

End TaskStore.

(** ** The application store ([store/appStore.ts]): notifications *)

Module Notification.
Inductive kind := success | error | info | warning.

(** [Omit<Notification, 'id'>], the argument of [addNotification]. *)
Record draft := mkDraft {
  d_type : kind;
  d_title : string;
  d_message : string;
  d_duration : option Z
}.

Record t := mk {
  id : string;
  type : kind;
  title : string;
  message : string;
  duration : option Z
}.
End Notification.

Module AppStore.

(** The notification queue and the flags of the store; its task list is
    the one of the task store with a smaller task record and is left
    out. *)
Record AppState := mkState {
  notifications : list Notification.t;
  wsConnected : bool;
  wsReconnecting : bool;
  sidebarOpen : bool
}.

Definition initialState : AppState := mkState [] false false true.

(** [notification.duration || 5000]: an absent or zero duration is falsy. *)
Definition duration_or_default (d : option Z) : Z :=
  match d with
  | Some v => if decide (v = 0) then 5000 else v
  | None => 5000
  end.

(** The entry built by [addNotification] at clock reading [now]. *)
Definition newNotification (n : Notification.draft) (now : Z)
  : Notification.t :=
  Notification.mk (pretty now) (Notification.d_type n)
    (Notification.d_title n) (Notification.d_message n)
    (Some (duration_or_default (Notification.d_duration n))).

Definition with_notifications (ns : list Notification.t) (s : AppState)
  : AppState :=
  mkState ns (wsConnected s) (wsReconnecting s) (sidebarOpen s).

(** [state.notifications.filter(n => n.id !== id)] *)
Definition removeNotification (id : string) (s : AppState) : AppState :=
  with_notifications
    (filter (λ n, Notification.id n ≠ id) (notifications s)) s.

Definition clearNotifications (s : AppState) : AppState :=
  with_notifications [] s.

Definition reset (s : AppState) : AppState := initialState.

(** A timer armed by [setTimeout]: the id to remove and the delay. *)
Record Timer := mkTimer { timer_id : string; timer_delay : Z }.

(** [addNotification]: the new entry goes to the front, the array is cut
    to its first ten entries, and a removal timer is armed when the
    duration is positive. *)
Definition addNotification (n : Notification.draft) (now : Z) (s : AppState)
  : AppState * option Timer :=
  let new := newNotification n now in
  let s' := with_notifications (slice0 (new :: notifications s) 10) s in
  let d := duration_or_default (Notification.d_duration n) in
  (s', if decide (d ≠ 0 ∧ d > 0) then Some (mkTimer (Notification.id new) d)
       else None).

(** The store together with the timers that are armed and not yet fired. *)
Record World := mkWorld { store : AppState; timers : list Timer }.

Definition initialWorld : World := mkWorld initialState [].

Definition arm (t : option Timer) (ts : list Timer) : list Timer :=
  match t with Some x => ts ++ [x] | None => ts end.

(** What can happen to the store: a call of one of its notification
    operations, a change of its flags ([setWsConnected],
    [setWsReconnecting], [setSidebarOpen]), or an armed timer firing. *)
Inductive step : World → World → Prop :=
| step_add n now w :
    step w (mkWorld (addNotification n now (store w)).1
                    (arm (addNotification n now (store w)).2 (timers w)))
| step_remove id w :
    step w (mkWorld (removeNotification id (store w)) (timers w))
| step_clear w :
    step w (mkWorld (clearNotifications (store w)) (timers w))
| step_reset w :
    step w (mkWorld (reset (store w)) (timers w))
| step_flags connected reconnecting open w :
    step w (mkWorld (mkState (notifications (store w)) connected
                             reconnecting open) (timers w))
| step_fire i t w :
    timers w !! i = Some t →
    step w (mkWorld (removeNotification (timer_id t) (store w))
                    (delete i (timers w))).

Definition reachable (w : World) : Prop := rtc step initialWorld w.

(** Enqueuing a list of drafts, each with the clock reading of its call,
    oldest first. *)
Definition enqueue_all (ns : list (Notification.draft * Z)) (s : AppState)
  : AppState :=
  foldl (λ acc '(n, now), (addNotification n now acc).1) s ns.

Definition capacity : nat := 10.

(** The callback handed to [setTimeout] by [addNotification]. *)
Definition fire (t : Timer) (s : AppState) : AppState :=
  with_notifications
    (filter (λ n, Notification.id n ≠ timer_id t) (notifications s)) s.

End AppStore.

(** ** The WebSocket service ([services/websocket.ts]) *)

Module TaskUpdateMessage.
Record t := mk {
  task_id : string;
  status : TaskStatus;
  progress : Z;
  message : option string
}.
End TaskUpdateMessage.

Module TaskLogMessage.
Record t := mk {
  task_id : string;
  level : LogLevel;
  message : string;
  step : option string
}.
End TaskLogMessage.

Module WebSocketService.

(** The [data] handed to a listener by [emit]. *)
Inductive Payload :=
| ConnectionStatus (connected : bool) (reason : option string)
| ConnectionError (error : string)
| TaskUpdate (data : TaskUpdateMessage.t)
| TaskLogData (data : TaskLogMessage.t)
| SystemStatus (data : string)
| SocketError (error : string).

(** The events of the socket for which [setupEventListeners] installs a
    handler. *)
Inductive SocketEvent :=
| ev_connect
| ev_disconnect (reason : string)
| ev_connect_error (error : string)
| ev_task_update (data : TaskUpdateMessage.t)
| ev_task_log (data : TaskLogMessage.t)
| ev_system_status (data : string)
| ev_error (error : string).

(** The [data] of an outgoing message: the object [{ task_id }] of the
    two subscription calls, or any other value as its serialised text. *)
Inductive Outgoing :=
| TaskRef (task_id : string)
| Other (json : string).

(** The socket of the client library: its [connected] flag and the
    messages handed to [socket.emit], oldest first. *)
Record Socket := mkSocket {
  connected : bool;
  emitted : list (string * Outgoing)
}.

Inductive ConsoleEntry :=
| console_log (text : string)
| console_warn (text : string)
| console_error (text : string).

(** How a listener call ends. *)
Inductive Outcome := Returned | Threw (error : string).

#[global] Instance Outcome_eq_dec : EqDecision Outcome.
Proof. solve_decision. Defined.

(** The line printed by the [catch] of [emit]. *)
Definition caught (event : string) : ConsoleEntry :=
  console_error ("Error in WebSocket event handler for " +:+ event +:+ ":").

Definition maxReconnectAttempts : Z := 5.
Definition reconnectInterval : Z := 3000.

(** The character that opens and closes a quoted name in a message. *)
Definition quote : string := String (Ascii.ascii_of_nat 34) EmptyString.

(** The event names that [socket.emit] of the client library refuses: it
    throws before anything is sent. *)
Definition reserved_event (event : string) : bool :=
  existsb (String.eqb event)
    ["connect"; "connect_error"; "disconnect"; "disconnecting";
     "newListener"; "removeListener"].

Section Service.
(** Listener functions are compared by identity ([indexOf]). *)
Context {Callback : Type} `{EqDecision Callback}.
(** The state outside the service on which listeners act (the stores,
    the page). *)
Context {W : Type}.

(** A call that a listener makes back into the registry of the service
    while an event is dispatched to it: [on] or [off]. *)
Inductive RegistryCall :=
| reg_on (event : string) (callback : Callback)
| reg_off (event : string) (callback : option Callback).

(** What one call of a listener does: the state it leaves outside the
    service, the calls it makes back into the registry, in their order, and
    how it ends. *)
Record Reaction := mkReaction {
  world_after : W;
  registry_calls : list RegistryCall;
  outcome : Outcome
}.

(** The listeners, by what a call of each does.  Calls of a listener into
    [send], [disconnect] or [reconnect] of the service are not part of what
    a listener is here. *)
Variable run : Callback → Payload → W → Reaction.

(** The fields of the service object, followed by what its methods do
    to the world around it: the console, the listener calls made so far
    (oldest first) and the state the listeners act on. *)
Record State := mkState {
  socket : option Socket;
  reconnectAttempts : Z;
  listeners : gmap string (list Callback);
  console : list ConsoleEntry;
  calls : list (Callback * Payload);
  world : W
}.

Definition with_listeners (ls : gmap string (list Callback)) (s : State)
  : State :=
  mkState (socket s) (reconnectAttempts s) ls (console s) (calls s)
          (world s).

Definition with_socket (sock : option Socket) (s : State) : State :=
  mkState sock (reconnectAttempts s) (listeners s) (console s) (calls s)
          (world s).

Definition with_reconnectAttempts (n : Z) (s : State) : State :=
  mkState (socket s) n (listeners s) (console s) (calls s) (world s).

Definition print (e : ConsoleEntry) (s : State) : State :=
  mkState (socket s) (reconnectAttempts s) (listeners s)
          (console s ++ [e]) (calls s) (world s).

(** [on]: create the array when the event has none, then [push]. *)
Definition on (event : string) (callback : Callback) (s : State) : State :=
  let callbacks := default [] (listeners s !! event) in
  with_listeners (<[event := callbacks ++ [callback]]> (listeners s)) s.

(** [off]: without a callback the event's entry is deleted; with one,
    [splice(index, 1)] takes out the first occurrence found by
    [indexOf], if any. *)
Definition off (event : string) (callback : option Callback) (s : State)
  : State :=
  match listeners s !! event with
  | None => s
  | Some callbacks =>
      match callback with
      | Some cb =>
          let index := indexOf cb callbacks in
          if decide (index > -1)
          then with_listeners
                 (<[event := delete (Z.to_nat index) callbacks]>
                    (listeners s)) s
          else s
      | None => with_listeners (delete event (listeners s)) s
      end
  end.

Definition registry_call (c : RegistryCall) (s : State) : State :=
  match c with
  | reg_on event callback => on event callback s
  | reg_off event callback => off event callback s
  end.

(** [emit] walks, with [forEach], the array object that the registry held
    for the event when the dispatch began.  [on] and [off] with a callback
    work on that same object, so what a listener does to it shows in the
    walk.  [off] without a callback deletes the key and leaves the object
    alone: from then on the walk is over an array that the registry no
    longer holds ([detached]), and later calls for the event go to a new
    array. *)
Definition unlinks (event : string) (c : RegistryCall) : bool :=
  match c with
  | reg_off e None => bool_decide (e = event)
  | _ => false
  end.

(** The array that [forEach] walks, as it is now. *)
Definition walked (event : string) (detached : option (list Callback))
    (s : State) : list Callback :=
  match detached with
  | Some callbacks => callbacks
  | None => default [] (listeners s !! event)
  end.

(** The registry calls of a listener, one after the other. *)
Fixpoint apply_calls (event : string) (cs : list RegistryCall)
    (detached : option (list Callback)) (s : State)
  : option (list Callback) * State :=
  match cs with
  | [] => (detached, s)
  | c :: rest =>
      apply_calls event rest
        (match detached with
         | Some _ => detached
         | None => if unlinks event c then listeners s !! event else None
         end)
        (registry_call c s)
  end.

(** One round of the [forEach] of [emit]: the call of a listener inside
    [try], with what the listener does to the registry, and the
    [console.error] of the [catch]. *)
Definition call_listener (event : string) (data : Payload)
    (detached : option (list Callback)) (s : State) (callback : Callback)
  : option (list Callback) * State :=
  let r := run callback data (world s) in
  let s1 := mkState (socket s) (reconnectAttempts s) (listeners s)
                    (console s) (calls s ++ [(callback, data)])
                    (world_after r) in
  let ds := apply_calls event (registry_calls r) detached s1 in
  (ds.1, match outcome r with
         | Returned => ds.2
         | Threw _ => print (caught event) ds.2
         end).

(** [forEach]: the length is read once, when the walk begins ([n] rounds
    are left, the next index is [k]); an index that the array no longer
    has when its turn comes is passed over, and a callback pushed during
    the walk lies beyond the length read. *)
Fixpoint forEach (event : string) (data : Payload) (n k : nat)
    (detached : option (list Callback)) (s : State) : State :=
  match n with
  | O => s
  | S n' =>
      match walked event detached s !! k with
      | Some callback =>
          let ds := call_listener event data detached s callback in
          forEach event data n' (S k) ds.1 ds.2
      | None => forEach event data n' (S k) detached s
      end
  end.

(** How the calls of one dispatch end, listener after listener, each
    acting on the state the one before it left, when the callbacks called
    are [callbacks]. *)
Fixpoint outcomes (data : Payload) (w : W) (callbacks : list Callback)
  : list Outcome :=
  match callbacks with
  | [] => []
  | cb :: rest =>
      outcome (run cb data w)
        :: outcomes data (world_after (run cb data w)) rest
  end.

Definition emit (event : string) (data : Payload) (s : State) : State :=
  match listeners s !! event with
  | Some callbacks => forEach event data (length callbacks) 0 None s
  | None => s
  end.

(** The listeners in [callbacks] make no call to [on] or [off] when they
    are called with [data]. *)
Definition quiet (data : Payload) (callbacks : list Callback) : Prop :=
  ∀ cb w, cb ∈ callbacks → registry_calls (run cb data w) = [].


(** [send]: handed to the socket only when there is one and it is
    connected; a warning otherwise.  On a connected socket a reserved
    event name makes [socket.emit] throw before it sends: nothing is handed
    over, and the error leaves [send] ([send_outcome]). *)
Definition send (event : string) (data : Outgoing) (s : State) : State :=
  match socket s with
  | Some sock =>
      if connected sock
      then if reserved_event event then s
           else with_socket
                  (Some (mkSocket (connected sock)
                                  (emitted sock ++ [(event, data)]))) s
      else print (console_warn
                    "WebSocket not connected, cannot send message") s
  | None =>
      print (console_warn "WebSocket not connected, cannot send message") s
  end.

(** How a call of [send] ends. *)
Definition send_outcome (event : string) (s : State) : Outcome :=
  match socket s with
  | Some sock =>
      if connected sock && reserved_event event
      then Threw (quote +:+ event +:+ quote +:+ " is a reserved event name")
      else Returned
  | None => Returned
  end.

Definition subscribeToTask (taskId : string) (s : State) : State :=
  send "subscribe_task" (TaskRef taskId) s.

Definition unsubscribeFromTask (taskId : string) (s : State) : State :=
  send "unsubscribe_task" (TaskRef taskId) s.

Definition isConnected (s : State) : bool :=
  match socket s with
  | Some sock => connected sock
  | None => false
  end.

(** The [connected] flag as the client library keeps it: set before the
    [connect] handlers run, cleared before the [disconnect] ones. *)
Definition socket_flag (ev : SocketEvent) (sock : Socket) : Socket :=
  match ev with
  | ev_connect => mkSocket true (emitted sock)
  | ev_disconnect _ => mkSocket false (emitted sock)
  | _ => sock
  end.

(** The handlers installed by [setupEventListeners]. *)
Definition handler (ev : SocketEvent) (s : State) : State :=
  match ev with
  | ev_connect =>
      emit "connection_status" (ConnectionStatus true None)
        (with_reconnectAttempts 0
           (print (console_log "WebSocket connected") s))
  | ev_disconnect reason =>
      emit "connection_status" (ConnectionStatus false (Some reason))
        (print (console_log "WebSocket disconnected:") s)
  | ev_connect_error error =>
      emit "connection_error" (ConnectionError error)
        (print (console_error "WebSocket connection error:") s)
  | ev_task_update data =>
      emit "task_update" (TaskUpdate data)
        (print (console_log "Task update received:") s)
  | ev_task_log data =>
      emit "task_log" (TaskLogData data)
        (print (console_log "Task log received:") s)
  | ev_system_status data =>
      emit "system_status" (SystemStatus data)
        (print (console_log "System status received:") s)
  | ev_error error =>
      emit "error" (SocketError error)
        (print (console_error "WebSocket error:") s)
  end.

(** An event fired by the socket; without a socket there is nothing
    that fires. *)
Definition receive (s : State) (ev : SocketEvent) : State :=
  match socket s with
  | Some sock => handler ev (with_socket (Some (socket_flag ev sock)) s)
  | None => s
  end.

Definition receive_all (evs : list SocketEvent) (s : State) : State :=
  foldl receive s evs.

(** Whether a payload is an event of the given task. *)
Definition about_task (taskId : string) (p : Payload) : bool :=
  match p with
  | TaskUpdate d => bool_decide (TaskUpdateMessage.task_id d = taskId)
  | TaskLogData d => bool_decide (TaskLogMessage.task_id d = taskId)
  | _ => false
  end.

(** The events of a task that a listener has been called with since the
    service was in state [s0], oldest first. *)
Definition received (callback : Callback) (taskId : string)
    (s0 s : State) : list Payload :=
  (filter (λ c, c.1 = callback ∧ about_task taskId c.2 = true)
          (drop (length (calls s0)) (calls s))).*2.

(** The local event and payload under which a socket event is handed
    to [emit] by its handler. *)
Definition forwarded (ev : SocketEvent) : string * Payload :=
  match ev with
  | ev_connect => ("connection_status", ConnectionStatus true None)
  | ev_disconnect reason =>
      ("connection_status", ConnectionStatus false (Some reason))
  | ev_connect_error error => ("connection_error", ConnectionError error)
  | ev_task_update data => ("task_update", TaskUpdate data)
  | ev_task_log data => ("task_log", TaskLogData data)
  | ev_system_status data => ("system_status", SystemStatus data)
  | ev_error error => ("error", SocketError error)
  end.


(** Applying [off] twice gives what applying it once gives. *)
Definition off_idempotent (event : string) (callback : option Callback)
    (s : State) : Prop :=
  off event callback (off event callback s) = off event callback s.

(** A subscription: the call of [subscribeToTask], then the events the
    socket fires afterwards. *)
Definition session (taskId : string) (incoming : list SocketEvent)
    (s : State) : State :=
  receive_all incoming (subscribeToTask taskId s).
End Service.







(** *** Connection life cycle and statistics *)

Record ConnectionStats := mkStats {
  stat_connected : bool;
  stat_reconnectAttempts : Z;
  stat_listeners : nat
}.

Section Lifecycle.
Context {Callback : Type} `{EqDecision Callback} {W : Type}.
Variable run : Callback → Payload → W → @Reaction Callback W.

(** [getConnectionStats]: [listeners] is the [size] of the map. *)
Definition getConnectionStats (s : @State Callback W) : ConnectionStats :=
  mkStats (isConnected s) (reconnectAttempts s) (size (listeners s)).

(** [connect]: [io(wsUrl, options)] hands back a socket that is not yet
    connected and has been given nothing to send; the handlers of
    [setupEventListeners] are installed on it. *)
Definition connect (s : @State Callback W) : @State Callback W :=
  with_socket (Some (mkSocket false [])) s.

(** The service as the constructor leaves it. *)
Definition initial (w : W) : @State Callback W :=
  connect (mkState None 0 ∅ [] [] w).

(** [socket.disconnect()] of the client library; [fired] are the events
    the library fires on the socket while it closes it. *)
Definition socket_disconnect (fired : list SocketEvent)
    (s : @State Callback W) : @State Callback W :=
  match socket s with
  | Some _ => receive_all run fired s
  | None => s
  end.

(** [disconnect]: close and forget the socket, if any, and clear the
    registry. *)
Definition disconnect (fired : list SocketEvent) (s : @State Callback W)
  : @State Callback W :=
  with_listeners ∅
    (match socket s with
     | Some _ => with_socket None (socket_disconnect fired s)
     | None => s
     end).

(** [reconnect]: close the socket, if any, and [connect] again. *)
Definition reconnect (fired : list SocketEvent) (s : @State Callback W)
  : @State Callback W :=
  connect (socket_disconnect fired s).

(** What happens to a service: a call of one of its public methods, or an
    event fired by its socket. *)
Inductive Call :=
| call_on (event : string) (callback : Callback)
| call_off (event : string) (callback : option Callback)
| call_send (event : string) (data : Outgoing)
| call_subscribeToTask (taskId : string)
| call_unsubscribeFromTask (taskId : string)
| call_reconnect (fired : list SocketEvent)
| call_disconnect (fired : list SocketEvent)
| socket_fires (ev : SocketEvent).

Definition exec (s : @State Callback W) (c : Call) : @State Callback W :=
  match c with
  | call_on event callback => on event callback s
  | call_off event callback => off event callback s
  | call_send event data => send event data s
  | call_subscribeToTask taskId => subscribeToTask taskId s
  | call_unsubscribeFromTask taskId => unsubscribeFromTask taskId s
  | call_reconnect fired => reconnect fired s
  | call_disconnect fired => disconnect fired s
  | socket_fires ev => receive run s ev
  end.

(** The service after a history of calls and events, oldest first. *)
Definition after (history : list Call) (w : W) : @State Callback W :=
  foldl exec (initial w) history.
End Lifecycle.

End WebSocketService.

(** ** Sample data *)

Module Sample.

Definition sample_task (id : string) (st : TaskStatus) (p : Z)
    (created : string) : Task.t :=
  Task.mk id "Widget X" st p created created None "u1" None None.

Definition sample_result : AnalysisResult.t :=
  AnalysisResult.mk "r1" "t1"
    (MarketAnalysis.mk "large" "makers" "crowded" "growing")
    (ProductAnalysis.mk ["sturdy"] ["heavy"] ["export"] ["clones"])
    (Recommendations.mk ["fix onboarding"] [] [])
    [] "2024-01-03".

Definition running_store : TaskStore.TaskState :=
  TaskStore.mkState [sample_task "t1" RUNNING 50 "2024-01-01"] None ∅.

Definition completed_store : TaskStore.TaskState :=
  TaskStore.mkState [sample_task "t1" COMPLETED 100 "2024-01-01"] None ∅.

Definition failed_store : TaskStore.TaskState :=
  TaskStore.mkState [sample_task "t1" FAILED 0 "2024-01-01"] None ∅.

Definition mixed_store : TaskStore.TaskState :=
  TaskStore.mkState
    [sample_task "t2" QUEUED 0 "2024-01-02";
     sample_task "t1" RUNNING 50 "2024-01-01"] None ∅.

Definition sample_log (id taskId message : string) : TaskLog.t :=
  TaskLog.mk id taskId INFO message None "2024-01-01".

(** [new Date(str).getTime()] on the dates of the samples. *)
Definition sample_getTime (str : string) : option Z :=
  if decide (str = "2024-01-01") then Some 1704067200000
  else if decide (str = "2024-01-02") then Some 1704153600000
  else if decide (str = "2024-01-03") then Some 1704240000000
  else None.

Definition dated_store : TaskStore.TaskState :=
  TaskStore.mkState
    [sample_task "t1" COMPLETED 100 "2024-01-01";
     sample_task "t3" QUEUED 0 "2024-01-03";
     sample_task "t2" RUNNING 50 "2024-01-02"] None ∅.

Definition sample_draft (title : string) : Notification.draft :=
  Notification.mkDraft Notification.info title "done" None.

(** Ten notifications enqueued at clock readings 1 to 10. *)
Definition full_queue : AppStore.AppState :=
  AppStore.enqueue_all
    ((λ k, (sample_draft "note", Z.of_nat k)) <$> seq 1 10)
    AppStore.initialState.

(** Listeners of the samples: listener 1 throws on every call, any other
    one records the call in the state it acts on and returns. *)
Definition quiet_run (cb : nat) (data : WebSocketService.Payload)
    (w : list string) : @WebSocketService.Reaction nat (list string) :=
  if decide (cb = 1%nat)
  then WebSocketService.mkReaction w [] (WebSocketService.Threw "TypeError")
  else WebSocketService.mkReaction (w ++ ["seen"]) []
         WebSocketService.Returned.

(** The same listeners, and listener 4, which takes itself out of the
    registry of [task_update] when it is called. *)
Definition sample_run (cb : nat) (data : WebSocketService.Payload)
    (w : list string) : @WebSocketService.Reaction nat (list string) :=
  if decide (cb = 4%nat)
  then WebSocketService.mkReaction (w ++ ["seen"])
         [WebSocketService.reg_off "task_update" (Some 4%nat)]
         WebSocketService.Returned
  else quiet_run cb data w.

Definition service (connected : bool)
    (listeners : gmap string (list nat))
  : @WebSocketService.State nat (list string) :=
  WebSocketService.mkState
    (Some (WebSocketService.mkSocket connected [])) 0 listeners [] [] [].

(** A listener waits for task updates, the socket is not connected. *)
Definition disconnected_service := service false {["task_update" := [2%nat]]}.

(** A throwing listener registered in front of two others. *)
Definition connected_service :=
  service true {["task_update" := [1%nat; 2%nat; 3%nat]]}.

(** The same listener registered twice for one event. *)
Definition twice_registered :=
  WebSocketService.on "task_update" 2%nat
    (WebSocketService.on "task_update" 2%nat (service true ∅)).

Definition completed_update : WebSocketService.Payload :=
  WebSocketService.TaskUpdate
    (TaskUpdateMessage.mk "t1" COMPLETED 100 None).

(** Listener 4, which unregisters itself, in front of listener 3. *)
Definition self_removing_service :=
  service true {["task_update" := [4%nat; 3%nat]]}.

(** A task whose creation date does not parse between two that do. *)
Definition undated_store : TaskStore.TaskState :=
  TaskStore.mkState
    [sample_task "t1" COMPLETED 100 "2024-01-01";
     sample_task "t3" QUEUED 0 "bad";
     sample_task "t4" RUNNING 50 "2024-01-03"] None ∅.

(** Two tasks of one creation date around a later one. *)
Definition tied_store : TaskStore.TaskState :=
  TaskStore.mkState
    [sample_task "t1" COMPLETED 100 "2024-01-01";
     sample_task "t3" QUEUED 0 "2024-01-03";
     sample_task "t4" RUNNING 50 "2024-01-01"] None ∅.

(** A queue of two notifications made at clock readings 5 and 6. *)
Definition short_queue : AppStore.AppState :=
  AppStore.enqueue_all [(sample_draft "first", 5); (sample_draft "second", 6)]
    AppStore.initialState.

End Sample.

(** * Properties *)

(** ** Task store: the update operations are plain setters *)

Section TaskStoreFacts.
Import TaskStore.

Lemma lookup_on_task taskId f (l : list Task.t) i t :
  l !! i = Some t → (on_task taskId f <$> l) !! i = Some (on_task taskId f t).
Proof. intros Hi. by rewrite list_lookup_fmap, Hi. Qed.

Lemma on_task_id taskId f t :
  (∀ x, Task.id (f x) = Task.id x) →
  Task.id (on_task taskId f t) = Task.id t.
Proof. intros Hf. unfold on_task. case_decide; [apply Hf | done]. Qed.

Lemma elem_of_removeTask taskId s t :
  t ∈ tasks (removeTask taskId s) ↔ t ∈ tasks s ∧ Task.id t ≠ taskId.
Proof. unfold removeTask; simpl. rewrite list_elem_of_filter. tauto. Qed.

Lemma getTaskLogs_addTaskLog taskId log s other :
  getTaskLogs other (addTaskLog taskId log s) =
    if decide (other = taskId) then getTaskLogs taskId s ++ [log]
    else getTaskLogs other s.
Proof.
  unfold getTaskLogs, addTaskLog; simpl.
  case_decide as Hid.
  - subst other. by rewrite lookup_insert_eq.
  - by rewrite lookup_insert_ne.
Qed.

End TaskStoreFacts.

(** C1, as stated, fails: on a RUNNING task with progress 50 a call with 10
    lowers the progress, and on a COMPLETED task with progress 100 the same
    call changes the progress. *)
Lemma updateTaskProgress_not_guarded :
  ¬ TaskStore.progress_guarded "t1" 10 "2024-01-02" Sample.running_store ∧
  ¬ TaskStore.progress_guarded "t1" 10 "2024-01-02" Sample.completed_store.
Proof.
  split; intros H.
  - destruct (H 0%nat _ _ eq_refl eq_refl) as [Hrun _].
    specialize (Hrun eq_refl). simpl in Hrun. lia.
  - destruct (H 0%nat _ _ eq_refl eq_refl) as [_ Hterm].
    specialize (Hterm eq_refl). simpl in Hterm. lia.
Qed.

(** C1, amended: [updateTaskProgress] overwrites the progress of the task
    with the given id by the value it is given, whatever the status and the
    progress of the task were; id, status and result of the task stay, and
    a task with another id is left as it is. *)
Theorem updateTaskProgress_overwrites taskId p now s i t :
  TaskStore.tasks s !! i = Some t →
  ∃ t', TaskStore.tasks (TaskStore.updateTaskProgress taskId p now s) !! i
          = Some t' ∧
        Task.id t' = Task.id t ∧
        Task.status t' = Task.status t ∧
        Task.result t' = Task.result t ∧
        (Task.id t = taskId → Task.progress t' = p) ∧
        (Task.id t ≠ taskId → t' = t).
Proof.
  intros Hi. eexists. split.
  - simpl. by apply lookup_on_task.
  - unfold TaskStore.on_task. case_decide; simpl; naive_solver.
Qed.

Lemma updateTaskProgress_overwrites_witness :
  ∃ t', TaskStore.tasks
          (TaskStore.updateTaskProgress "t1" 10 "2024-01-02"
             Sample.completed_store) !! 0%nat = Some t' ∧
        Task.id t' = "t1" ∧
        Task.status t' = COMPLETED ∧
        Task.result t' = None ∧
        ("t1" = "t1" → Task.progress t' = 10) ∧
        ("t1" ≠ "t1" → t' = Sample.sample_task "t1" COMPLETED 100 "2024-01-01").
Proof.
  apply (updateTaskProgress_overwrites "t1" 10 "2024-01-02"
           Sample.completed_store 0
           (Sample.sample_task "t1" COMPLETED 100 "2024-01-01")).
  reflexivity.
Defined.

(** C2, as stated, fails: a COMPLETED task is put back to QUEUED, which
    leaves a terminal state along no arrow of the state machine. *)
Lemma updateTaskStatus_not_guarded :
  ¬ TaskStore.status_guarded "t1" QUEUED "2024-01-02" Sample.completed_store.
Proof.
  intros H. destruct (H 0%nat _ _ eq_refl eq_refl) as [Heq | Harrow].
  - simpl in Heq. discriminate.
  - simpl in Harrow. discriminate.
Qed.

(** C2, amended: [updateTaskStatus] sets the status of the task with the
    given id to the status it is given, whatever the status of the task was
    (terminal or not), so every pair of an old and a new status can occur;
    progress and result of the task stay, and a task with another id is
    left as it is. *)
Theorem updateTaskStatus_overwrites taskId st now s i t :
  TaskStore.tasks s !! i = Some t →
  ∃ t', TaskStore.tasks (TaskStore.updateTaskStatus taskId st now s) !! i
          = Some t' ∧
        Task.id t' = Task.id t ∧
        Task.progress t' = Task.progress t ∧
        Task.result t' = Task.result t ∧
        (Task.id t = taskId → Task.status t' = st) ∧
        (Task.id t ≠ taskId → t' = t).
Proof.
  intros Hi. eexists. split.
  - simpl. by apply lookup_on_task.
  - unfold TaskStore.on_task. case_decide; simpl; naive_solver.
Qed.

Lemma updateTaskStatus_overwrites_witness :
  ∃ t', TaskStore.tasks
          (TaskStore.updateTaskStatus "t1" RUNNING "2024-01-02"
             Sample.failed_store) !! 0%nat = Some t' ∧
        Task.id t' = "t1" ∧
        Task.progress t' = 0 ∧
        Task.result t' = None ∧
        ("t1" = "t1" → Task.status t' = RUNNING) ∧
        ("t1" ≠ "t1" → t' = Sample.sample_task "t1" FAILED 0 "2024-01-01").
Proof.
  apply (updateTaskStatus_overwrites "t1" RUNNING "2024-01-02"
           Sample.failed_store 0
           (Sample.sample_task "t1" FAILED 0 "2024-01-01")).
  reflexivity.
Defined.

(** C6, as stated, fails: a FAILED task without a result gets one, and its
    status stays FAILED. *)
Lemma updateTaskResult_not_guarded :
  ¬ TaskStore.result_guarded "t1" Sample.sample_result "2024-01-03"
      Sample.failed_store.
Proof.
  intros H. destruct (H 0%nat _ _ eq_refl eq_refl) as [(Hrun & _) | Hsame].
  - simpl in Hrun. discriminate.
  - simpl in Hsame. discriminate.
Qed.

(** C6, amended: [updateTaskResult] attaches the result it is given to the
    task with the given id in every status, over a result the task may
    already have, and changes neither the status nor the progress of the
    task; a task with another id is left as it is. *)
Theorem updateTaskResult_overwrites taskId r now s i t :
  TaskStore.tasks s !! i = Some t →
  ∃ t', TaskStore.tasks (TaskStore.updateTaskResult taskId r now s) !! i
          = Some t' ∧
        Task.id t' = Task.id t ∧
        Task.status t' = Task.status t ∧
        Task.progress t' = Task.progress t ∧
        (Task.id t = taskId → Task.result t' = Some r) ∧
        (Task.id t ≠ taskId → t' = t).
Proof.
  intros Hi. eexists. split.
  - simpl. by apply lookup_on_task.
  - unfold TaskStore.on_task. case_decide; simpl; naive_solver.
Qed.

Lemma updateTaskResult_overwrites_witness :
  ∃ t', TaskStore.tasks
          (TaskStore.updateTaskResult "t1" Sample.sample_result "2024-01-03"
             Sample.failed_store) !! 0%nat = Some t' ∧
        Task.id t' = "t1" ∧
        Task.status t' = FAILED ∧
        Task.progress t' = 0 ∧
        ("t1" = "t1" → Task.result t' = Some Sample.sample_result) ∧
        ("t1" ≠ "t1" → t' = Sample.sample_task "t1" FAILED 0 "2024-01-01").
Proof.
  apply (updateTaskResult_overwrites "t1" Sample.sample_result "2024-01-03"
           Sample.failed_store 0
           (Sample.sample_task "t1" FAILED 0 "2024-01-01")).
  reflexivity.
Defined.

(** C7, as stated, fails: the delete of a RUNNING task is not refused, the
    task is gone from the store afterwards. *)
Lemma removeTask_not_guarded :
  ¬ TaskStore.delete_guarded "t1" Sample.running_store.
Proof.
  intros H.
  destruct (H (Sample.sample_task "t1" RUNNING 50 "2024-01-01")) as [Hkept _].
  - apply list_elem_of_singleton. reflexivity.
  - reflexivity.
  - specialize (Hkept eq_refl). apply elem_of_removeTask in Hkept.
    destruct Hkept as [_ Hne]. by apply Hne.
Qed.

Example removeTask_running_sample :
  Task.id <$> TaskStore.tasks (TaskStore.removeTask "t1" Sample.mixed_store)
    = ["t2"].
Proof. vm_compute. reflexivity. Qed.

(** C7, amended: [removeTask] raises no error and removes every task whose
    id is the given one, in whatever status (RUNNING too); the tasks with
    another id all stay, in their order, and the rest of the store is
    untouched. *)
Theorem removeTask_removes_by_id taskId s :
  (∀ t, t ∈ TaskStore.tasks (TaskStore.removeTask taskId s) ↔
        t ∈ TaskStore.tasks s ∧ Task.id t ≠ taskId) ∧
  TaskStore.tasks (TaskStore.removeTask taskId s) `sublist_of` TaskStore.tasks s ∧
  TaskStore.currentTask (TaskStore.removeTask taskId s) = TaskStore.currentTask s ∧
  TaskStore.taskLogs (TaskStore.removeTask taskId s) = TaskStore.taskLogs s.
Proof.
  split; [| split; [| done]].
  - intros t. apply elem_of_removeTask.
  - simpl. apply sublist_filter.
Qed.

(** C5: after [addTaskLog taskId log] the logs read back for [taskId] are
    the previous ones followed by [log], and the logs read back for any
    other task id are the previous ones; the task list is untouched. *)
Theorem addTaskLog_appends taskId log s other :
  TaskStore.getTaskLogs other (TaskStore.addTaskLog taskId log s) =
    (if decide (other = taskId)
     then TaskStore.getTaskLogs taskId s ++ [log]
     else TaskStore.getTaskLogs other s) ∧
  TaskStore.tasks (TaskStore.addTaskLog taskId log s) = TaskStore.tasks s.
Proof.
  split; [apply getTaskLogs_addTaskLog | done].
Qed.

Example addTaskLog_sample :
  TaskStore.getTaskLogs "t1"
    (TaskStore.addTaskLogs
       [("t1", Sample.sample_log "l1" "t1" "collecting");
        ("t2", Sample.sample_log "l2" "t2" "queued");
        ("t1", Sample.sample_log "l3" "t1" "analysing")]
       TaskStore.initialState) =
  [Sample.sample_log "l1" "t1" "collecting";
   Sample.sample_log "l3" "t1" "analysing"].
Proof. vm_compute. reflexivity. Qed.

(** Over a run of appends the logs of a task only grow at their end, by the
    entries appended for that task, in the order of the calls. *)
Corollary addTaskLogs_appends entries s taskId :
  TaskStore.getTaskLogs taskId (TaskStore.addTaskLogs entries s) =
    TaskStore.getTaskLogs taskId s ++
    (filter (λ e, e.1 = taskId) entries).*2.
Proof.
  revert s. induction entries as [| [id log] entries IH]; intros s.
  - simpl. by rewrite app_nil_r.
  - unfold TaskStore.addTaskLogs in *. simpl foldl. rewrite IH.
    rewrite getTaskLogs_addTaskLog.
    rewrite filter_cons. simpl. case_decide as Hid.
    + subst id. rewrite decide_True by done. simpl. by rewrite <- app_assoc.
    + rewrite decide_False by done. done.
Qed.

(** ** Application store: the notification queue *)

Section SliceFacts.
Context {A : Type}.
Implicit Types l : list A.

Lemma slice0_nonneg l e : 0 ≤ e → slice0 l e = take (Z.to_nat e) l.
Proof.
  intros He. unfold slice0. rewrite decide_False by lia.
  destruct (Z.min_spec e (Z.of_nat (length l))) as [[Hlt ->] | [Hge ->]].
  - done.
  - rewrite Nat2Z.id. rewrite !take_ge; [done | lia | lia].
Qed.

Lemma slice0_prefix l e : slice0 l e `prefix_of` l.
Proof. unfold slice0. apply prefix_take. Qed.

Lemma take_cons_take (k : nat) x l :
  take (S k) (x :: take (S k) l) = take (S k) (x :: l).
Proof. simpl. rewrite take_take. by replace (k `min` S k)%nat with k by lia. Qed.
End SliceFacts.

Section AppStoreFacts.
Import AppStore.

Lemma notifications_addNotification n now s :
  notifications (addNotification n now s).1 =
    take capacity (newNotification n now :: notifications s).
Proof. unfold addNotification; simpl. by rewrite slice0_nonneg. Qed.

Lemma length_addNotification n now s :
  (length (notifications (addNotification n now s).1) ≤ capacity)%nat.
Proof. rewrite notifications_addNotification, length_take. lia. Qed.

Lemma length_removeNotification id s :
  (length (notifications (removeNotification id s))
     ≤ length (notifications s))%nat.
Proof. unfold removeNotification; simpl. apply length_filter. Qed.

(** The bound is an invariant of every step. *)
Lemma step_bounded w w' :
  step w w' →
  (length (notifications (store w)) ≤ capacity)%nat →
  (length (notifications (store w')) ≤ capacity)%nat.
Proof.
  intros Hstep Hw. inversion Hstep; subst; simpl store.
  - apply length_addNotification.
  - etrans; [apply length_removeNotification | done].
  - simpl. lia.
  - simpl. lia.
  - done.
  - etrans; [apply length_removeNotification | done].
Qed.

Lemma reachable_bounded w :
  reachable w → (length (notifications (store w)) ≤ capacity)%nat.
Proof.
  unfold reachable. revert w. apply rtc_ind_r.
  - simpl. lia.
  - intros y z _ Hstep IH. by eapply step_bounded.
Qed.

Lemma enqueue_all_snoc ns x s :
  enqueue_all (ns ++ [x]) s = (addNotification x.1 x.2 (enqueue_all ns s)).1.
Proof. unfold enqueue_all. rewrite foldl_app. simpl. by destruct x. Qed.

Lemma enqueue_all_initial ns :
  notifications (enqueue_all ns initialState) =
    take capacity (reverse ((λ e, newNotification e.1 e.2) <$> ns)).
Proof.
  induction ns as [| x ns IH] using rev_ind.
  - done.
  - rewrite enqueue_all_snoc, notifications_addNotification, IH.
    rewrite fmap_app, reverse_app. simpl.
    apply (take_cons_take 9).
Qed.

End AppStoreFacts.

(** C4: the notification queue never holds more than ten entries, in any
    state the store can reach and after every [addNotification]; below
    capacity an enqueue drops nothing; at capacity it puts the new entry in
    front and drops the last entry of the queue and no other, and that entry
    is the oldest: after a run of enqueues the queue holds the ten latest
    entries, newest first. *)
Theorem addNotification_bounded_drops_oldest n now s w ns :
  (AppStore.reachable w →
   (length (AppStore.notifications (AppStore.store w)) ≤ AppStore.capacity)%nat) ∧
  (length (AppStore.notifications (AppStore.addNotification n now s).1)
     ≤ AppStore.capacity)%nat ∧
  ((length (AppStore.notifications s) < AppStore.capacity)%nat →
   AppStore.notifications (AppStore.addNotification n now s).1 =
     AppStore.newNotification n now :: AppStore.notifications s) ∧
  (length (AppStore.notifications s) = AppStore.capacity →
   ∃ kept oldest,
     AppStore.notifications s = kept ++ [oldest] ∧
     AppStore.notifications (AppStore.addNotification n now s).1 =
       AppStore.newNotification n now :: kept) ∧
  AppStore.notifications (AppStore.enqueue_all ns AppStore.initialState) =
    take AppStore.capacity
         (reverse ((λ e, AppStore.newNotification e.1 e.2) <$> ns)).
Proof.
  repeat split.
  - apply reachable_bounded.
  - apply length_addNotification.
  - intros Hlt. rewrite notifications_addNotification.
    unfold AppStore.capacity in *. simpl. f_equal. apply take_ge. lia.
  - intros Hfull. rewrite notifications_addNotification.
    destruct (AppStore.notifications s) as [| x l] eqn:Hl using rev_ind;
      [discriminate |].
    clear IHl. exists l, x. split; [done |].
    rewrite length_app in Hfull. unfold AppStore.capacity in *. simpl in *.
    f_equal. rewrite take_app_le by lia. apply take_ge. lia.
  - apply enqueue_all_initial.
Qed.

Lemma addNotification_bounded_drops_oldest_witness :
  ∃ kept oldest,
    AppStore.notifications Sample.full_queue = kept ++ [oldest] ∧
    AppStore.notifications
      (AppStore.addNotification (Sample.sample_draft "late") 11
         Sample.full_queue).1 =
      AppStore.newNotification (Sample.sample_draft "late") 11 :: kept.
Proof.
  destruct (addNotification_bounded_drops_oldest (Sample.sample_draft "late")
              11 Sample.full_queue AppStore.initialWorld [])
    as (_ & _ & _ & Hfull & _).
  apply Hfull. vm_compute. reflexivity.
Defined.

(** The entry dropped from the full sample queue is the one enqueued first
    (clock reading 1), and the entry enqueued last is in front. *)
Example full_queue_drop :
  Notification.id <$>
    AppStore.notifications
      (AppStore.addNotification (Sample.sample_draft "late") 11
         Sample.full_queue).1 =
  ["11"; "10"; "9"; "8"; "7"; "6"; "5"; "4"; "3"; "2"].
Proof. vm_compute. reflexivity. Qed.

(** ** Task store: the most recent tasks *)

Section SortFacts.
Context {A : Type} (cmp : A → A → Z) (P : A → Prop) (R : relation A).
Hypothesis cmp_R : ∀ a b, P a → P b → cmp a b ≤ 0 ↔ R a b.
Hypothesis R_total : ∀ a b, P a → P b → R a b ∨ R b a.
Hypothesis R_trans : ∀ a b c, R a b → R b c → R a c.

Lemma insert_by_Permutation x l : insert_by cmp x l ≡ₚ x :: l.
Proof.
  induction l as [| y l IH]; simpl; [done |].
  case_decide; [done |]. rewrite IH. apply Permutation_swap.
Qed.

Lemma sort_by_Permutation l : sort_by cmp l ≡ₚ l.
Proof.
  induction l as [| x l IH]; simpl; [done |].
  fold (sort_by cmp l). by rewrite insert_by_Permutation, IH.
Qed.

Lemma insert_by_StronglySorted x l :
  P x → Forall P l → StronglySorted R l →
  StronglySorted R (insert_by cmp x l).
Proof.
  intros Px. induction l as [| y l IH]; intros HP Hsorted; simpl.
  - by repeat constructor.
  - apply Forall_cons in HP as [Py HP].
    apply StronglySorted_inv in Hsorted as [Hsorted Hy].
    case_decide as Hcmp.
    + apply cmp_R in Hcmp; [| done..].
      constructor; [by constructor |].
      constructor; [done |].
      eapply Forall_impl; [apply Hy |]. intros z Hz. by eapply R_trans.
    + constructor; [by apply IH |].
      rewrite insert_by_Permutation. constructor; [| done].
      destruct (R_total x y Px Py) as [Hxy | Hyx]; [| done].
      apply cmp_R in Hxy; [done..].
Qed.

Lemma sort_by_StronglySorted l :
  Forall P l → StronglySorted R (sort_by cmp l).
Proof.
  induction l as [| x l IH]; intros HP; simpl; [constructor |].
  apply Forall_cons in HP as [Px HP]. fold (sort_by cmp l).
  apply insert_by_StronglySorted; [done | | by apply IH].
  by rewrite sort_by_Permutation.
Qed.
End SortFacts.

Section RecentFacts.
Import TaskStore.
Variable getTime : string → option Z.

Lemma compareCreated_recent_first a b :
  dated getTime a → dated getTime b →
  compareCreated getTime a b ≤ 0 ↔ recent_first getTime a b.
Proof.
  unfold dated, compareCreated, recent_first. intros [ta ->] [tb ->]. lia.
Qed.

Lemma recent_first_total a b :
  dated getTime a → dated getTime b →
  recent_first getTime a b ∨ recent_first getTime b a.
Proof. unfold dated, recent_first. intros [ta ->] [tb ->]. lia. Qed.

Lemma recent_first_trans a b c :
  recent_first getTime a b → recent_first getTime b c →
  recent_first getTime a c.
Proof.
  unfold recent_first.
  destruct (getTime (Task.created_at a)), (getTime (Task.created_at b)),
    (getTime (Task.created_at c)); try done. lia.
Qed.

Lemma sorted_tasks_recent_first l :
  Forall (dated getTime) l →
  StronglySorted (recent_first getTime) (sort_by (compareCreated getTime) l).
Proof.
  apply sort_by_StronglySorted.
  - apply compareCreated_recent_first.
  - apply recent_first_total.
  - apply recent_first_trans.
Qed.
End RecentFacts.

(** C8, as stated, fails: with a task whose creation date does not parse
    between an older and a more recent task, the comparator answers "equal"
    for every neighbouring pair and the sort leaves the array as it is:
    the older task is returned in front of the more recent one. *)
Lemma getRecentTasks_undated_not_recent_first :
  ¬ TaskStore.recent_first_truncated Sample.sample_getTime None
      Sample.undated_store.
Proof.
  intros (rest & Hperm & Hordered & Hlen).
  assert ((TaskStore.getRecentTasks Sample.sample_getTime None
             Sample.undated_store).2 =
          [Sample.sample_task "t1" COMPLETED 100 "2024-01-01";
           Sample.sample_task "t3" QUEUED 0 "bad";
           Sample.sample_task "t4" RUNNING 50 "2024-01-03"]) as Hr
    by (vm_compute; reflexivity).
  rewrite Hr in *. clear Hlen.
  specialize (Hordered 0%nat 2%nat
                (Sample.sample_task "t1" COMPLETED 100 "2024-01-01")
                (Sample.sample_task "t4" RUNNING 50 "2024-01-03")
                ltac:(lia) eq_refl eq_refl
                1704067200000 1704240000000 eq_refl eq_refl).
  lia.
Qed.

Example getRecentTasks_undated_sample :
  Task.id <$> (TaskStore.getRecentTasks Sample.sample_getTime None
                 Sample.undated_store).2 = ["t1"; "t3"; "t4"].
Proof. vm_compute. reflexivity. Qed.

(** C8, amended: when the creation dates of the tasks parse, [getRecentTasks] returns
    the front part [r] of the task list put in most-recent-first order: [r]
    followed by the tasks left out is a permutation of the tasks of the
    store, sorted by creation instant going down; for a limit that is not
    negative [r] holds [limit] tasks (10 when no limit is given), or all
    of them when there are fewer.  The store's own array is left in that
    order. *)
Theorem getRecentTasks_most_recent_first getTime limit s :
  (∀ t, t ∈ TaskStore.tasks s → is_Some (getTime (Task.created_at t))) →
  ∃ rest,
    (TaskStore.getRecentTasks getTime limit s).2 ++ rest ≡ₚ TaskStore.tasks s ∧
    StronglySorted (TaskStore.recent_first getTime)
      ((TaskStore.getRecentTasks getTime limit s).2 ++ rest) ∧
    (0 ≤ default 10 limit →
     length (TaskStore.getRecentTasks getTime limit s).2 =
       Nat.min (Z.to_nat (default 10 limit)) (length (TaskStore.tasks s))) ∧
    TaskStore.tasks (TaskStore.getRecentTasks getTime limit s).1 =
      (TaskStore.getRecentTasks getTime limit s).2 ++ rest.
Proof.
  intros Hdated. unfold TaskStore.getRecentTasks; simpl.
  set (sorted := sort_by (TaskStore.compareCreated getTime) (TaskStore.tasks s)).
  destruct (slice0_prefix sorted (default 10 limit)) as [rest Hrest].
  exists rest. rewrite <- Hrest. repeat split.
  - apply sort_by_Permutation.
  - apply sorted_tasks_recent_first. by apply Forall_forall.
  - intros Hlimit. rewrite slice0_nonneg by done.
    rewrite length_take. unfold sorted.
    by rewrite (sort_by_Permutation _ (TaskStore.tasks s)).
Qed.

Lemma getRecentTasks_most_recent_first_witness :
  ∃ rest,
    (TaskStore.getRecentTasks Sample.sample_getTime (Some 2)
       Sample.dated_store).2 ++ rest ≡ₚ TaskStore.tasks Sample.dated_store ∧
    StronglySorted (TaskStore.recent_first Sample.sample_getTime)
      ((TaskStore.getRecentTasks Sample.sample_getTime (Some 2)
          Sample.dated_store).2 ++ rest) ∧
    (0 ≤ default 10 (Some 2) →
     length (TaskStore.getRecentTasks Sample.sample_getTime (Some 2)
               Sample.dated_store).2 =
       Nat.min (Z.to_nat (default 10 (Some 2)))
               (length (TaskStore.tasks Sample.dated_store))) ∧
    TaskStore.tasks (TaskStore.getRecentTasks Sample.sample_getTime (Some 2)
                       Sample.dated_store).1 =
      (TaskStore.getRecentTasks Sample.sample_getTime (Some 2)
         Sample.dated_store).2 ++ rest.
Proof.
  apply (getRecentTasks_most_recent_first Sample.sample_getTime (Some 2)
           Sample.dated_store).
  intros t Ht. simpl in Ht.
  repeat (apply elem_of_cons in Ht as [-> | Ht]; [by eexists |]).
  by apply elem_of_nil in Ht.
Defined.

Example getRecentTasks_sample :
  Task.id <$> (TaskStore.getRecentTasks Sample.sample_getTime (Some 2)
                 Sample.dated_store).2 = ["t3"; "t2"] ∧
  Task.id <$> (TaskStore.getRecentTasks Sample.sample_getTime None
                 Sample.dated_store).2 = ["t3"; "t2"; "t1"].
Proof. split; vm_compute; reflexivity. Qed.

(** ** WebSocket service: the listener registry *)

Section IndexOfFacts.
Context {A : Type} `{EqDecision A}.
Implicit Types l : list A.

Lemma indexOf_from_absent x l k : x ∉ l → indexOf_from x l k = -1.
Proof.
  revert k. induction l as [| y l IH]; intros k Hx; simpl; [done |].
  apply not_elem_of_cons in Hx as [Hne Hx].
  rewrite decide_False by done. by apply IH.
Qed.

Lemma indexOf_from_present x l k :
  0 ≤ k → x ∈ l →
  ∃ i : nat, indexOf_from x l k = k + Z.of_nat i ∧ l !! i = Some x.
Proof.
  revert k. induction l as [| y l IH]; intros k Hk Hx; simpl.
  - by apply elem_of_nil in Hx.
  - case_decide as Hy.
    + exists 0%nat. subst y. split; [lia | done].
    + apply elem_of_cons in Hx as [-> | Hx]; [done |].
      destruct (IH (k + 1) ltac:(lia) Hx) as (i & Hi & Hl).
      exists (S i). split; [lia | done].
Qed.

Lemma indexOf_absent x l : x ∉ l → indexOf x l = -1.
Proof. apply indexOf_from_absent. Qed.

Lemma indexOf_present x l :
  x ∈ l → ∃ i : nat, indexOf x l = Z.of_nat i ∧ l !! i = Some x.
Proof.
  intros Hx. destruct (indexOf_from_present x l 0 ltac:(lia) Hx) as (i & Hi & Hl).
  exists i. unfold indexOf. split; [lia | done].
Qed.

Lemma NoDup_delete_lookup x l i :
  NoDup l → l !! i = Some x → x ∉ delete i l.
Proof.
  intros Hnd Hi Hx.
  apply list_elem_of_lookup in Hx as [j Hj].
  destruct (decide (j < i)%nat).
  - rewrite list_lookup_delete_lt in Hj by done.
    pose proof (NoDup_lookup _ _ _ _ Hnd Hi Hj). lia.
  - rewrite list_lookup_delete_ge in Hj by lia.
    pose proof (NoDup_lookup _ _ _ _ Hnd Hi Hj). lia.
Qed.
End IndexOfFacts.

Section RegistryFacts.
Import WebSocketService.
Context {Callback : Type} `{EqDecision Callback} {W : Type}.
Implicit Types s : @State Callback W.

Lemma with_listeners_same s : with_listeners (listeners s) s = s.
Proof. by destruct s. Qed.

(** The callbacks registered for an event. *)
Lemma off_absent event cb s :
  cb ∉ default [] (listeners s !! event) → off event (Some cb) s = s.
Proof.
  intros Hcb. unfold off. destruct (listeners s !! event) as [l |]; [| done].
  simpl in Hcb. rewrite indexOf_absent by done. by rewrite decide_False by lia.
Qed.

Lemma off_present event cb s l :
  listeners s !! event = Some l → cb ∈ l →
  ∃ i : nat, l !! i = Some cb ∧
    off event (Some cb) s =
      with_listeners (<[event := delete i l]> (listeners s)) s.
Proof.
  intros Hl Hcb. destruct (indexOf_present cb l Hcb) as (i & Hi & Hli).
  exists i. split; [done |]. unfold off. rewrite Hl, Hi.
  rewrite decide_True by lia. by rewrite Nat2Z.id.
Qed.

(** [off] with a callback changes nothing exactly when the callback is
    not registered for the event. *)
Lemma off_fixed event cb s :
  off event (Some cb) s = s ↔ cb ∉ default [] (listeners s !! event).
Proof.
  split; [| apply off_absent].
  intros Hfix Hcb. destruct (listeners s !! event) as [l |] eqn:Hl; simpl in Hcb.
  - destruct (off_present event cb s l Hl Hcb) as (i & Hi & Hoff).
    rewrite Hoff in Hfix.
    apply (f_equal (λ s', length <$> listeners s' !! event)) in Hfix.
    simpl in Hfix. rewrite lookup_insert_eq, Hl in Hfix. simpl in Hfix.
    rewrite length_delete in Hfix by eauto.
    apply lookup_lt_Some in Hi. injection Hfix. lia.
  - by apply elem_of_nil in Hcb.
Qed.

Lemma off_event_twice event s :
  off event None (off event None s) = off event None s.
Proof.
  unfold off at 2 3. destruct (listeners s !! event) as [l |] eqn:Hl.
  - unfold off. simpl. by rewrite lookup_delete_eq.
  - unfold off. by rewrite Hl.
Qed.

Lemma off_NoDup_absent event cb s :
  NoDup (default [] (listeners s !! event)) →
  cb ∉ default [] (listeners (off event (Some cb) s) !! event).
Proof.
  intros Hnd.
  destruct (decide (cb ∈ default [] (listeners s !! event))) as [Hcb | Hcb].
  - destruct (listeners s !! event) as [l |] eqn:Hl; simpl in *.
    + destruct (off_present event cb s l Hl Hcb) as (i & Hi & ->).
      simpl. rewrite lookup_insert_eq. simpl.
      by apply NoDup_delete_lookup.
    + by apply elem_of_nil in Hcb.
  - by rewrite off_absent.
Qed.
End RegistryFacts.

(** C9, as stated, fails: with one callback registered twice for an event,
    the first [off] takes out one registration and the second [off] the
    other, so that two calls do not leave what one call leaves. *)
Lemma off_twice_registered_not_idempotent :
  ¬ WebSocketService.off_idempotent "task_update" (Some 2%nat)
      Sample.twice_registered.
Proof.
  unfold WebSocketService.off_idempotent. intros H.
  apply (f_equal (λ s, WebSocketService.listeners s !! "task_update")) in H.
  vm_compute in H. discriminate.
Qed.

(** C9, amended: [off] with a callback that is not registered for the event
    leaves the service unchanged; two calls of [off] leave what one call
    leaves exactly when the first call leaves no registration of the
    callback for the event, which is the case whenever no callback is
    registered twice for it; [off] without a callback is idempotent. *)
Theorem off_idempotent_unless_registered_again
    {Callback : Type} `{EqDecision Callback} {W : Type}
    event (cb : Callback) (s : @WebSocketService.State Callback W) :
  (cb ∉ default [] (WebSocketService.listeners s !! event) →
   WebSocketService.off event (Some cb) s = s) ∧
  (WebSocketService.off_idempotent event (Some cb) s ↔
   cb ∉ default []
          (WebSocketService.listeners
             (WebSocketService.off event (Some cb) s) !! event)) ∧
  (NoDup (default [] (WebSocketService.listeners s !! event)) →
   WebSocketService.off_idempotent event (Some cb) s) ∧
  WebSocketService.off_idempotent event None s.
Proof.
  split; [apply off_absent |]. split; [apply off_fixed |].
  split; [| apply off_event_twice].
  intros Hnd. apply off_fixed. by apply off_NoDup_absent.
Qed.

Lemma off_idempotent_unless_registered_again_witness :
  WebSocketService.off "task_update" (Some 7%nat) Sample.connected_service
    = Sample.connected_service ∧
  WebSocketService.off_idempotent "task_update" (Some 2%nat)
    Sample.connected_service.
Proof.
  destruct (off_idempotent_unless_registered_again "task_update" 7%nat
              Sample.connected_service) as (Habsent & _).
  destruct (off_idempotent_unless_registered_again "task_update" 2%nat
              Sample.connected_service) as (_ & _ & Hnodup & _).
  split.
  - apply Habsent. vm_compute. intros Hin.
    repeat (apply elem_of_cons in Hin as [Hin | Hin]; [discriminate |]).
    by apply elem_of_nil in Hin.
  - apply Hnodup. vm_compute.
    repeat (constructor; [intros Hin;
      repeat (apply elem_of_cons in Hin as [Hin | Hin]; [discriminate |]);
      by apply elem_of_nil in Hin |]).
    constructor.
Defined.

(** ** WebSocket service: dispatch to the listeners *)

Section DispatchFacts.
Import WebSocketService.
Context {Callback : Type} `{EqDecision Callback} {W : Type}.
Variable run : Callback → Payload → W → @Reaction Callback W.
Implicit Types s : @State Callback W.

(** What the registry calls leave alone. *)
Lemma registry_call_frame c s :
  socket (registry_call c s) = socket s ∧
  reconnectAttempts (registry_call c s) = reconnectAttempts s ∧
  console (registry_call c s) = console s ∧
  calls (registry_call c s) = calls s ∧
  world (registry_call c s) = world s.
Proof.
  destruct c as [event cb | event cb]; simpl; [done |].
  unfold off. destruct (listeners s !! event); [| done].
  destruct cb; [| done]. by case_decide.
Qed.

Lemma apply_calls_frame event cs detached s :
  socket (apply_calls event cs detached s).2 = socket s ∧
  reconnectAttempts (apply_calls event cs detached s).2 = reconnectAttempts s ∧
  console (apply_calls event cs detached s).2 = console s ∧
  calls (apply_calls event cs detached s).2 = calls s ∧
  world (apply_calls event cs detached s).2 = world s.
Proof.
  revert detached s. induction cs as [| c cs IH]; intros detached s; [done |].
  simpl. destruct (IH (match detached with
                       | Some _ => detached
                       | None => if unlinks event c then listeners s !! event
                                 else None
                       end) (registry_call c s)) as (-> & -> & -> & -> & ->).
  apply registry_call_frame.
Qed.

Lemma call_listener_frame event data detached s cb :
  socket (call_listener run event data detached s cb).2 = socket s ∧
  reconnectAttempts (call_listener run event data detached s cb).2
    = reconnectAttempts s ∧
  calls (call_listener run event data detached s cb).2
    = calls s ++ [(cb, data)] ∧
  world (call_listener run event data detached s cb).2
    = world_after (run cb data (world s)).
Proof.
  unfold call_listener. simpl.
  set (s1 := mkState _ _ _ _ _ _).
  destruct (apply_calls_frame event
              (registry_calls (run cb data (world s))) detached s1)
    as (Hsock & Hatt & _ & Hcalls & Hworld).
  by destruct (outcome (run cb data (world s))); simpl;
    rewrite Hsock, Hatt, Hcalls, Hworld.
Qed.

Lemma forEach_S event data n k detached s :
  forEach run event data (S n) k detached s =
    match walked event detached s !! k with
    | Some cb =>
        forEach run event data n (S k)
          (call_listener run event data detached s cb).1
          (call_listener run event data detached s cb).2
    | None => forEach run event data n (S k) detached s
    end.
Proof. reflexivity. Qed.

(** Whatever the listeners do, a dispatch touches neither the socket nor
    the reconnect counter, and the calls it makes all carry its data. *)
Lemma forEach_frame event data n k detached s :
  socket (forEach run event data n k detached s) = socket s ∧
  reconnectAttempts (forEach run event data n k detached s)
    = reconnectAttempts s ∧
  ∃ called, calls (forEach run event data n k detached s) =
              calls s ++ ((λ cb, (cb, data)) <$> called).
Proof.
  revert k detached s. induction n as [| n IH]; intros k detached s.
  - simpl. split; [done |]. split; [done |]. exists []. by rewrite app_nil_r.
  - rewrite forEach_S.
    destruct (walked event detached s !! k) as [cb |]; [| apply IH].
    destruct (call_listener_frame event data detached s cb)
      as (Hsock & Hatt & Hcalls & _).
    destruct (IH (S k) (call_listener run event data detached s cb).1
                (call_listener run event data detached s cb).2)
      as (-> & -> & called & ->).
    rewrite Hsock, Hatt, Hcalls. split; [done |]. split; [done |].
    exists (cb :: called). by rewrite <- app_assoc.
Qed.

Lemma emit_frame event data s :
  socket (emit run event data s) = socket s ∧
  reconnectAttempts (emit run event data s) = reconnectAttempts s ∧
  ∃ called, calls (emit run event data s) =
              calls s ++ ((λ cb, (cb, data)) <$> called).
Proof.
  unfold emit. destruct (listeners s !! event) as [callbacks |].
  - apply forEach_frame.
  - split; [done |]. split; [done |]. exists []. by rewrite app_nil_r.
Qed.

Lemma emit_unregistered event data s :
  listeners s !! event = None → emit run event data s = s.
Proof. intros Hnone. unfold emit. by rewrite Hnone. Qed.

(** Listeners that leave the registry alone. *)
Lemma call_listener_quiet event data detached s cb :
  registry_calls (run cb data (world s)) = [] →
  (call_listener run event data detached s cb).1 = detached ∧
  listeners (call_listener run event data detached s cb).2 = listeners s ∧
  console (call_listener run event data detached s cb).2 =
    console s ++ ((λ _, caught event) <$>
                    filter (λ o, o ≠ Returned)
                           [outcome (run cb data (world s))]).
Proof.
  intros Hquiet. unfold call_listener. rewrite Hquiet. simpl.
  destruct (outcome (run cb data (world s))); simpl.
  - by rewrite app_nil_r.
  - done.
Qed.

Lemma forEach_quiet event data callbacks n k s :
  quiet run data callbacks →
  listeners s !! event = Some callbacks →
  (n + k)%nat = length callbacks →
  calls (forEach run event data n k None s) =
    calls s ++ ((λ cb, (cb, data)) <$> drop k callbacks) ∧
  listeners (forEach run event data n k None s) = listeners s ∧
  console (forEach run event data n k None s) =
    console s ++ ((λ _, caught event) <$>
                    filter (λ o, o ≠ Returned)
                           (outcomes run data (world s) (drop k callbacks))).
Proof.
  intros Hquiet. revert k s.
  induction n as [| n IH]; intros k s Hls Hlen.
  - simpl. rewrite drop_ge by lia. simpl. by rewrite !app_nil_r.
  - rewrite forEach_S. unfold walked. rewrite Hls. simpl default.
    destruct (lookup_lt_is_Some_2 callbacks k ltac:(lia)) as [cb Hcb].
    rewrite Hcb. rewrite (drop_S _ _ _ Hcb).
    assert (registry_calls (run cb data (world s)) = []) as Hcalm.
    { apply Hquiet. by eapply list_elem_of_lookup_2. }
    destruct (call_listener_quiet event data None s cb Hcalm)
      as (Hdet & Hls' & Hconsole).
    destruct (call_listener_frame event data None s cb)
      as (_ & _ & Hcalls & Hworld).
    rewrite Hdet.
    destruct (IH (S k) (call_listener run event data None s cb).2)
      as (-> & -> & ->); [by rewrite Hls' | lia |].
    rewrite Hcalls, Hls', Hconsole, Hworld. simpl.
    rewrite <- !app_assoc. split; [done |]. split; [done |].
    f_equal. rewrite <- fmap_app. f_equal.
    rewrite (filter_cons _ (outcome (run cb data (world s)))
               (outcomes _ _ _ _)).
    rewrite (filter_cons _ (outcome (run cb data (world s))) []), filter_nil.
    by case_decide.
Qed.

Lemma emit_quiet event data s :
  quiet run data (default [] (listeners s !! event)) →
  calls (emit run event data s) =
    calls s ++ ((λ cb, (cb, data)) <$> default [] (listeners s !! event)) ∧
  listeners (emit run event data s) = listeners s.
Proof.
  intros Hquiet. unfold emit.
  destruct (listeners s !! event) as [callbacks |] eqn:Hls; simpl in *.
  - destruct (forEach_quiet event data callbacks (length callbacks) 0 s)
      as (-> & -> & _); [done | done | lia |].
    by rewrite drop_0.
  - by rewrite app_nil_r.
Qed.

Lemma handler_emit ev s :
  ∃ s0, handler run ev s = emit run (forwarded ev).1 (forwarded ev).2 s0 ∧
        calls s0 = calls s ∧ listeners s0 = listeners s ∧
        socket s0 = socket s ∧ world s0 = world s ∧
        (reconnectAttempts s = 0 → reconnectAttempts s0 = 0).
Proof. destruct ev; simpl; eexists; (split; [reflexivity | done]). Qed.

(** An event fired by the socket: the flag of the socket, the counter, and
    the calls, which all carry the payload of the event. *)
Lemma receive_frame ev s :
  socket (receive run s ev) = socket_flag ev <$> socket s ∧
  (reconnectAttempts s = 0 → reconnectAttempts (receive run s ev) = 0) ∧
  ∃ called, calls (receive run s ev) =
              calls s ++ ((λ cb, (cb, (forwarded ev).2)) <$> called).
Proof.
  unfold receive. destruct (socket s) as [sock |] eqn:Hsock; simpl.
  - destruct (handler_emit ev (with_socket (Some (socket_flag ev sock)) s))
      as (s0 & -> & Hcalls & _ & Hsocket & _ & Hatt).
    destruct (emit_frame (forwarded ev).1 (forwarded ev).2 s0)
      as (-> & -> & called & ->).
    rewrite Hsocket, Hcalls. simpl. split; [done |]. split; [done |].
    by exists called.
  - rewrite Hsock. split; [done |]. split; [done |].
    exists []. by rewrite app_nil_r.
Qed.

Lemma receive_all_frame evs s :
  emitted <$> socket (receive_all run evs s) = emitted <$> socket s ∧
  (is_Some (socket (receive_all run evs s)) ↔ is_Some (socket s)) ∧
  (reconnectAttempts s = 0 → reconnectAttempts (receive_all run evs s) = 0) ∧
  ∃ made, calls (receive_all run evs s) = calls s ++ made ∧
          Forall (λ c, ∃ ev, ev ∈ evs ∧ c.2 = (forwarded ev).2) made.
Proof.
  revert s. induction evs as [| ev evs IH]; intros s.
  - simpl. repeat split; try done. exists []. by rewrite app_nil_r.
  - unfold receive_all in *. simpl foldl.
    destruct (receive_frame ev s) as (Hsock & Hatt & called & Hcalls).
    destruct (IH (receive run s ev)) as (-> & -> & Hatt' & made & -> & Hmade).
    rewrite Hsock, Hcalls. repeat split.
    + destruct (socket s) as [sock |]; [| done]. simpl. by destruct ev.
    + intros [sock' Hs]. destruct (socket s); [by eauto | done].
    + intros [sock Hs]. rewrite Hs. simpl. by eauto.
    + auto.
    + exists (((λ cb, (cb, (forwarded ev).2)) <$> called) ++ made).
      split; [by rewrite app_assoc |].
      apply Forall_app. split.
      * apply Forall_fmap, Forall_forall. intros cb _. simpl.
        exists ev. split; [by left | done].
      * eapply Forall_impl; [apply Hmade |].
        intros c (ev' & Hin & Heq). exists ev'. split; [by right | done].
Qed.




Lemma send_spec event data s :
  calls (send event data s) = calls s ∧
  listeners (send event data s) = listeners s ∧
  world (send event data s) = world s ∧
  reconnectAttempts (send event data s) = reconnectAttempts s ∧
  (is_Some (socket (send event data s)) ↔ is_Some (socket s)).
Proof.
  unfold send. destruct (socket s) as [[[] sent] |] eqn:Hsock; simpl;
    [destruct (reserved_event event); simpl | |];
    rewrite ?Hsock; repeat split; eauto.
Qed.

End DispatchFacts.


(** On the first sample listener 4 is called and listener 3 is not. *)
Example emit_self_removing_sample :
  (WebSocketService.calls
     (WebSocketService.emit Sample.sample_run "task_update"
        Sample.completed_update Sample.self_removing_service)).*1 = [4%nat] ∧
  WebSocketService.listeners
    (WebSocketService.emit Sample.sample_run "task_update"
       Sample.completed_update Sample.self_removing_service)
    !! "task_update" = Some [3%nat].
Proof. split; vm_compute; reflexivity. Qed.



(** On the sample the first listener throws, and the two after it are
    called all the same. *)
Example emit_after_throw :
  WebSocketService.outcomes Sample.sample_run Sample.completed_update []
    [1%nat; 2%nat; 3%nat] =
    [WebSocketService.Threw "TypeError"; WebSocketService.Returned;
     WebSocketService.Returned] ∧
  (WebSocketService.calls
     (WebSocketService.emit Sample.sample_run "task_update"
        Sample.completed_update Sample.connected_service)).*1 =
    [1%nat; 2%nat; 3%nat] ∧
  WebSocketService.world
    (WebSocketService.emit Sample.sample_run "task_update"
       Sample.completed_update Sample.connected_service) = ["seen"; "seen"].
Proof. repeat split; vm_compute; reflexivity. Qed.

(** ** WebSocket service: subscribing to a task *)




(** Two terminal updates fired by the socket reach a listener as two
    terminal events: the service does not tell them apart from any other
    update. *)
Example two_terminal_updates_relayed :
  WebSocketService.received 2%nat "t1" Sample.connected_service
    (WebSocketService.session Sample.sample_run "t1"
       [WebSocketService.ev_task_update
          (TaskUpdateMessage.mk "t1" COMPLETED 100 None);
        WebSocketService.ev_task_update
          (TaskUpdateMessage.mk "t1" COMPLETED 100 None)]
       Sample.connected_service) =
    [Sample.completed_update; Sample.completed_update].
Proof. vm_compute. reflexivity. Qed.
(** * Further properties of the code *)

(** ** Task store: finding, adding and removing tasks *)

Section TaskLookupFacts.
Import TaskStore.

Lemma getTaskById_head taskId s :
  getTaskById taskId s = head (filter (λ t, Task.id t = taskId) (tasks s)).
Proof.
  unfold getTaskById. induction (tasks s) as [| t l IH]; [done |].
  rewrite filter_cons. simpl. case_decide; simpl; [done |].
  rewrite <- IH. by destruct (list_find _ l) as [[j t'] |].
Qed.

Lemma filter_id_removeTask taskId other (l : list Task.t) :
  filter (λ t, Task.id t = other) (filter (λ t, Task.id t ≠ taskId) l) =
    if decide (other = taskId) then []
    else filter (λ t, Task.id t = other) l.
Proof.
  induction l as [| t l IH]; [by case_decide |].
  rewrite !filter_cons.
  destruct (decide (Task.id t ≠ taskId)) as [Hne | Heq].
  - rewrite filter_cons, IH. repeat case_decide; naive_solver.
  - rewrite IH. apply dec_stable in Heq. repeat case_decide; naive_solver.
Qed.

Lemma on_task_absent taskId f (l : list Task.t) :
  Forall (λ t, Task.id t ≠ taskId) l → on_task taskId f <$> l = l.
Proof.
  induction 1 as [| t l Ht _ IH]; [done |].
  rewrite fmap_cons, IH. unfold on_task. by rewrite decide_False.
Qed.

Lemma getTaskById_None_Forall taskId s :
  getTaskById taskId s = None ↔ Forall (λ t, Task.id t ≠ taskId) (tasks s).
Proof.
  unfold getTaskById. destruct (list_find _ (tasks s)) as [[i t] |] eqn:Hfind.
  - simpl. split; [done |]. intros Hall.
    apply list_find_Some in Hfind as (Hi & Hid & _).
    rewrite Forall_lookup in Hall. by destruct (Hall i t Hi).
  - simpl. split; [| done]. intros _. by apply list_find_None in Hfind.
Qed.
End TaskLookupFacts.

(** X1: [getTaskById] returns the first task of the list that has the id:
    it answers [t] exactly when [t] sits at some position, has the id, and
    no task in front of it has the id; it answers nothing exactly when no
    task has the id. *)
Theorem getTaskById_first_match taskId s :
  (∀ t, TaskStore.getTaskById taskId s = Some t ↔
        ∃ i, TaskStore.tasks s !! i = Some t ∧ Task.id t = taskId ∧
             ∀ j t', TaskStore.tasks s !! j = Some t' → (j < i)%nat →
                     Task.id t' ≠ taskId) ∧
  (TaskStore.getTaskById taskId s = None ↔
   ∀ t, t ∈ TaskStore.tasks s → Task.id t ≠ taskId).
Proof.
  split.
  - intros t. unfold TaskStore.getTaskById. split.
    + destruct (list_find _ (TaskStore.tasks s)) as [[i t0] |] eqn:Hfind;
        [| done].
      simpl. intros [= ->]. exists i. by apply list_find_Some in Hfind.
    + intros (i & Hi & Hid & Hfirst).
      assert (list_find (λ task, Task.id task = taskId) (TaskStore.tasks s)
              = Some (i, t)) as -> by (by apply list_find_Some).
      done.
  - rewrite getTaskById_None_Forall. apply Forall_forall.
Qed.

(** X2: a task added with [addTask] is the one [getTaskById] finds under
    its id, also when an older task has the same id; under every other id
    [getTaskById] finds what it found before. *)
Theorem getTaskById_addTask task s other :
  TaskStore.getTaskById other (TaskStore.addTask task s) =
    if decide (Task.id task = other) then Some task
    else TaskStore.getTaskById other s.
Proof.
  rewrite !getTaskById_head. simpl. rewrite filter_cons. by case_decide.
Qed.

(** X3: after [removeTask taskId] nothing is found under [taskId], and
    under every other id [getTaskById] finds what it found before. *)
Theorem getTaskById_removeTask taskId s other :
  TaskStore.getTaskById other (TaskStore.removeTask taskId s) =
    if decide (other = taskId) then None
    else TaskStore.getTaskById other s.
Proof.
  rewrite !getTaskById_head. simpl. rewrite filter_id_removeTask.
  by case_decide.
Qed.

(** X4: when no task has the id ([getTaskById] answers nothing), the three
    setters, [updateTask] and [removeTask] leave the store as it is: no
    task is created and no error is raised. *)
Theorem update_absent_id_unchanged taskId st p r updates now s :
  TaskStore.getTaskById taskId s = None →
  TaskStore.updateTaskStatus taskId st now s = s ∧
  TaskStore.updateTaskProgress taskId p now s = s ∧
  TaskStore.updateTaskResult taskId r now s = s ∧
  TaskStore.updateTask taskId updates s = s ∧
  TaskStore.removeTask taskId s = s.
Proof.
  intros Habsent. apply getTaskById_None_Forall in Habsent.
  unfold TaskStore.updateTaskStatus, TaskStore.updateTaskProgress,
    TaskStore.updateTaskResult, TaskStore.updateTask, TaskStore.removeTask.
  rewrite !on_task_absent by done.
  assert (filter (λ task, Task.id task ≠ taskId) (TaskStore.tasks s)
          = TaskStore.tasks s) as ->.
  { induction Habsent as [| t l Ht _ IH]; [done |].
    by rewrite filter_cons, decide_True, IH. }
  by destruct s.
Qed.

Lemma update_absent_id_unchanged_witness :
  TaskStore.updateTaskStatus "t9" FAILED "2024-01-05" Sample.mixed_store
    = Sample.mixed_store ∧
  TaskStore.updateTaskProgress "t9" 70 "2024-01-05" Sample.mixed_store
    = Sample.mixed_store ∧
  TaskStore.updateTaskResult "t9" Sample.sample_result "2024-01-05"
    Sample.mixed_store = Sample.mixed_store ∧
  TaskStore.updateTask "t9" Partial.empty Sample.mixed_store
    = Sample.mixed_store ∧
  TaskStore.removeTask "t9" Sample.mixed_store = Sample.mixed_store.
Proof.
  apply (update_absent_id_unchanged "t9" FAILED 70 Sample.sample_result
           Partial.empty "2024-01-05" Sample.mixed_store).
  reflexivity.
Defined.

(** ** Task store: how the updates compose *)

Section TaskUpdateFacts.
Import TaskStore.

Lemma on_task_compose taskId f g h (l : list Task.t) :
  (∀ t, Task.id t = taskId → Task.id (f t) = taskId ∧ g (f t) = h t) →
  on_task taskId g <$> (on_task taskId f <$> l) = on_task taskId h <$> l.
Proof.
  intros Hfg. rewrite <- list_fmap_compose. apply list_fmap_ext.
  intros i t _. simpl. unfold on_task at 2 3. case_decide as Hid.
  - destruct (Hfg t Hid) as [Hf Hg]. unfold on_task. by rewrite decide_True.
  - unfold on_task. by rewrite decide_False.
Qed.

Lemma on_task_commute id1 id2 f g (l : list Task.t) :
  (∀ t, Task.id (f t) = Task.id t) → (∀ t, Task.id (g t) = Task.id t) →
  (∀ t, Task.id t = id1 → Task.id t = id2 → f (g t) = g (f t)) →
  on_task id1 f <$> (on_task id2 g <$> l) =
  on_task id2 g <$> (on_task id1 f <$> l).
Proof.
  intros Hf Hg Hfg. rewrite <- !list_fmap_compose. apply list_fmap_ext.
  intros i t _. simpl. unfold on_task.
  destruct (decide (Task.id t = id1)) as [H1 | H1],
           (decide (Task.id t = id2)) as [H2 | H2];
    rewrite ?Hf, ?Hg, ?decide_True, ?decide_False by done; auto.
Qed.

Lemma apply_merge first second t :
  Partial.apply second (Partial.apply first t) =
  Partial.apply (Partial.merge first second) t.
Proof.
  destruct first, second. unfold Partial.apply, Partial.merge; simpl.
  f_equal; match goal with |- context [Partial.later _ ?o] => by destruct o end.
Qed.

Lemma apply_empty t : Partial.apply Partial.empty t = t.
Proof. by destruct t. Qed.
End TaskUpdateFacts.

(** X5: of two writes of the same kind to the same task id the later one
    wins: the store after both is the store after the later one alone, for
    the status, the progress and the result. *)
Theorem setters_last_write_wins taskId st1 st2 p1 p2 r1 r2 now1 now2 s :
  TaskStore.updateTaskStatus taskId st2 now2
    (TaskStore.updateTaskStatus taskId st1 now1 s) =
    TaskStore.updateTaskStatus taskId st2 now2 s ∧
  TaskStore.updateTaskProgress taskId p2 now2
    (TaskStore.updateTaskProgress taskId p1 now1 s) =
    TaskStore.updateTaskProgress taskId p2 now2 s ∧
  TaskStore.updateTaskResult taskId r2 now2
    (TaskStore.updateTaskResult taskId r1 now1 s) =
    TaskStore.updateTaskResult taskId r2 now2 s.
Proof.
  unfold TaskStore.updateTaskStatus, TaskStore.updateTaskProgress,
    TaskStore.updateTaskResult; simpl.
  repeat split; f_equal; apply on_task_compose; intros t Hid; by split.
Qed.

(** X6: a progress write and a status write commute when they are for
    different task ids, or carry the same time stamp. *)
Theorem progress_status_commute id1 id2 p st now1 now2 s :
  id1 ≠ id2 ∨ now1 = now2 →
  TaskStore.updateTaskProgress id1 p now1
    (TaskStore.updateTaskStatus id2 st now2 s) =
  TaskStore.updateTaskStatus id2 st now2
    (TaskStore.updateTaskProgress id1 p now1 s).
Proof.
  intros Hcond.
  unfold TaskStore.updateTaskStatus, TaskStore.updateTaskProgress; simpl.
  f_equal. apply on_task_commute; [done | done |].
  intros t H1 H2. destruct Hcond as [Hne | ->]; [congruence | done].
Qed.

Lemma progress_status_commute_witness :
  TaskStore.updateTaskProgress "t1" 60 "2024-01-05"
    (TaskStore.updateTaskStatus "t2" RUNNING "2024-01-06" Sample.mixed_store) =
  TaskStore.updateTaskStatus "t2" RUNNING "2024-01-06"
    (TaskStore.updateTaskProgress "t1" 60 "2024-01-05" Sample.mixed_store).
Proof.
  apply (progress_status_commute "t1" "t2" 60 RUNNING "2024-01-05"
           "2024-01-06" Sample.mixed_store).
  left. discriminate.
Defined.

(** On one task the two orders leave different time stamps. *)
Example progress_status_order_shows :
  Task.updated_at <$>
    TaskStore.tasks
      (TaskStore.updateTaskProgress "t1" 60 "2024-01-05"
         (TaskStore.updateTaskStatus "t1" FAILED "2024-01-06"
            Sample.running_store)) = ["2024-01-05"] ∧
  Task.updated_at <$>
    TaskStore.tasks
      (TaskStore.updateTaskStatus "t1" FAILED "2024-01-06"
         (TaskStore.updateTaskProgress "t1" 60 "2024-01-05"
            Sample.running_store)) = ["2024-01-06"].
Proof. split; reflexivity. Qed.

(** X7: [updateTask] with no key leaves the store as it is; two calls of
    [updateTask] for one id, the first of which does not give the task
    another id, are one call with the two objects spread one over the
    other; and the three setters are [updateTask] with the keys they
    write. *)
Theorem updateTask_composes taskId first second st p r now s :
  TaskStore.updateTask taskId Partial.empty s = s ∧
  (Partial.id first = None ∨ Partial.id first = Some taskId →
   TaskStore.updateTask taskId second (TaskStore.updateTask taskId first s) =
   TaskStore.updateTask taskId (Partial.merge first second) s) ∧
  TaskStore.updateTaskStatus taskId st now s =
    TaskStore.updateTask taskId
      (Partial.mk None None (Some st) None None (Some now) None None None None)
      s ∧
  TaskStore.updateTaskProgress taskId p now s =
    TaskStore.updateTask taskId
      (Partial.mk None None None (Some p) None (Some now) None None None None)
      s ∧
  TaskStore.updateTaskResult taskId r now s =
    TaskStore.updateTask taskId
      (Partial.mk None None None None None (Some now) None None (Some (Some r))
         None) s.
Proof.
  unfold TaskStore.updateTask, TaskStore.updateTaskStatus,
    TaskStore.updateTaskProgress, TaskStore.updateTaskResult; simpl.
  split; [| split; [| done]].
  - destruct s as [l c g]; simpl. f_equal.
    rewrite <- (list_fmap_id l) at 2. apply list_fmap_ext.
    intros i t _. unfold TaskStore.on_task. case_decide; [| done].
    apply apply_empty.
  - intros Hid. f_equal. apply on_task_compose. intros t Ht. split.
    + unfold Partial.apply; simpl. by destruct Hid as [-> | ->].
    + apply apply_merge.
Qed.

Lemma updateTask_composes_witness :
  TaskStore.updateTask "t1"
    (Partial.mk None None None (Some 80) None None None None None None)
    (TaskStore.updateTask "t1"
       (Partial.mk None None (Some FAILED) (Some 70) None None None None None
          None) Sample.running_store) =
  TaskStore.updateTask "t1"
    (Partial.merge
       (Partial.mk None None (Some FAILED) (Some 70) None None None None None
          None)
       (Partial.mk None None None (Some 80) None None None None None None))
    Sample.running_store.
Proof.
  destruct (updateTask_composes "t1"
              (Partial.mk None None (Some FAILED) (Some 70) None None None
                 None None None)
              (Partial.mk None None None (Some 80) None None None None None
                 None)
              QUEUED 0 Sample.sample_result "2024-01-05" Sample.running_store)
    as (_ & Hmerge & _).
  apply Hmerge. by left.
Defined.

(** A first call that gives the task another id takes it out of reach of
    the second call. *)
Example updateTask_rename_sample :
  (λ t, (Task.id t, Task.progress t)) <$>
    TaskStore.tasks
      (TaskStore.updateTask "t1"
         (Partial.mk None None None (Some 80) None None None None None None)
         (TaskStore.updateTask "t1"
            (Partial.mk (Some "t7") None None None None None None None None
               None) Sample.running_store)) = [("t7", 50)].
Proof. reflexivity. Qed.

(** ** Task store: filters and statistics *)

Section TaskFilterFacts.
Import TaskStore.

End TaskFilterFacts.

(** X8: [getTasksByStatus] returns, in the order of the store, the tasks
    that have the status and no other; once [updateTaskStatus] has set the
    status of a task id, the tasks with that id are found under the new
    status only. *)
Theorem getTasksByStatus_after_update st taskId new now s :
  (∀ t, t ∈ TaskStore.getTasksByStatus st s ↔
        t ∈ TaskStore.tasks s ∧ Task.status t = st) ∧
  TaskStore.getTasksByStatus st s `sublist_of` TaskStore.tasks s ∧
  (∀ t, t ∈ TaskStore.getTasksByStatus st
              (TaskStore.updateTaskStatus taskId new now s) →
        Task.id t = taskId → st = new).
Proof.
  unfold TaskStore.getTasksByStatus. split; [| split].
  - intros t. rewrite list_elem_of_filter. tauto.
  - apply sublist_filter.
  - intros t Ht Hid. apply list_elem_of_filter in Ht as [Hst Ht].
    simpl in Ht. apply list_elem_of_fmap in Ht as (t0 & -> & _).
    unfold TaskStore.on_task in *. case_decide as Hid0; [done |].
    done.
Qed.



(** The rate as the code computes it: one COMPLETED task of three gives
    33.33333333333333, a store without a COMPLETED task gives 0, and a
    store with only COMPLETED tasks gives 100. *)
Example getTaskStats_rate_samples :
  TaskStore.completionRate (TaskStore.getTaskStats Sample.dated_store)
    = 0x1.0aaaaaaaaaaaap+5%float ∧
  TaskStore.completionRate (TaskStore.getTaskStats Sample.running_store)
    = 0%float ∧
  TaskStore.completionRate (TaskStore.getTaskStats Sample.completed_store)
    = 100%float.
Proof. repeat split; vm_compute; reflexivity. Qed.

(** X10: [clearTaskLogs] empties the logs read back for its task id and
    leaves the logs of every other id and the tasks alone; clearing after
    an append forgets the append, and gives back the store it started from
    when the task id had no entry. *)
Theorem clearTaskLogs_forgets taskId log s other :
  TaskStore.getTaskLogs other (TaskStore.clearTaskLogs taskId s) =
    (if decide (other = taskId) then []
     else TaskStore.getTaskLogs other s) ∧
  TaskStore.clearTaskLogs taskId (TaskStore.addTaskLog taskId log s) =
    TaskStore.clearTaskLogs taskId s ∧
  (TaskStore.taskLogs s !! taskId = None →
   TaskStore.clearTaskLogs taskId (TaskStore.addTaskLog taskId log s) = s).
Proof.
  unfold TaskStore.getTaskLogs, TaskStore.clearTaskLogs, TaskStore.addTaskLog;
    simpl.
  split; [| split].
  - case_decide as Hid.
    + subst other. by rewrite lookup_delete_eq.
    + by rewrite lookup_delete_ne.
  - by rewrite delete_insert_eq.
  - intros Hnone. rewrite delete_insert_eq, delete_id by done. by destruct s.
Qed.

Lemma clearTaskLogs_forgets_witness :
  TaskStore.clearTaskLogs "t1"
    (TaskStore.addTaskLog "t1" (Sample.sample_log "l1" "t1" "collecting")
       Sample.running_store) = Sample.running_store.
Proof.
  destruct (clearTaskLogs_forgets "t1"
              (Sample.sample_log "l1" "t1" "collecting")
              Sample.running_store "t1") as (_ & _ & Hfresh).
  apply Hfresh. reflexivity.
Defined.

(** ** Task store: more on the most recent tasks *)

Section SliceEdgeFacts.
Context {A : Type}.
Implicit Types l : list A.

Lemma slice0_negative l e :
  e < 0 → slice0 l e = take (length l - Z.to_nat (- e)) l.
Proof.
  intros He. unfold slice0. rewrite decide_True by done. f_equal. lia.
Qed.

Lemma slice0_all l e : Z.of_nat (length l) ≤ e → slice0 l e = l.
Proof.
  intros He. rewrite slice0_nonneg by lia. apply take_ge. lia.
Qed.
End SliceEdgeFacts.

Section SortedAgainFacts.
Context {A : Type} (cmp : A → A → Z) (P : A → Prop) (R : relation A).
Hypothesis cmp_R : ∀ a b, P a → P b → cmp a b ≤ 0 ↔ R a b.

Lemma sort_by_sorted l :
  Forall P l → StronglySorted R l → sort_by cmp l = l.
Proof.
  induction l as [| x l IH]; intros HP Hsorted; [done |].
  apply Forall_cons in HP as [Px HP].
  apply StronglySorted_inv in Hsorted as [Hsorted Hx].
  simpl. fold (sort_by cmp l). rewrite IH by done.
  destruct l as [| y l]; [done |]. simpl.
  apply Forall_cons in HP as [Py _]. apply Forall_cons in Hx as [Hxy _].
  rewrite decide_True; [done |]. by apply cmp_R.
Qed.
End SortedAgainFacts.

Section RecentAgainFacts.
Import TaskStore.
Variable getTime : string → option Z.

Lemma filter_instant_insert_by k x (l : list Task.t) :
  filter (λ t, getTime (Task.created_at t) = Some k)
         (insert_by (compareCreated getTime) x l) =
  filter (λ t, getTime (Task.created_at t) = Some k) (x :: l).
Proof.
  induction l as [| y l IH]; [done |]. simpl.
  case_decide as Hcmp; [done |].
  rewrite filter_cons, IH, !filter_cons.
  destruct (decide (getTime (Task.created_at y) = Some k)) as [Hy | Hy];
    [| done].
  destruct (decide (getTime (Task.created_at x) = Some k)) as [Hx | Hx];
    [| done].
  unfold compareCreated in Hcmp. rewrite Hx, Hy in Hcmp. lia.
Qed.

Lemma filter_instant_sort_by k (l : list Task.t) :
  filter (λ t, getTime (Task.created_at t) = Some k)
         (sort_by (compareCreated getTime) l) =
  filter (λ t, getTime (Task.created_at t) = Some k) l.
Proof.
  induction l as [| x l IH]; [done |]. simpl.
  fold (sort_by (compareCreated getTime) l).
  by rewrite filter_instant_insert_by, !filter_cons, IH.
Qed.

Lemma length_sort_by (l : list Task.t) :
  length (sort_by (compareCreated getTime) l) = length l.
Proof.
  induction l as [| x l IH]; [done |]. simpl.
  fold (sort_by (compareCreated getTime) l). rewrite <- IH.
  generalize (sort_by (compareCreated getTime) l). intros l'.
  induction l' as [| y l' IH']; [done |]. simpl.
  case_decide; simpl; [done |]. by rewrite IH'.
Qed.
End RecentAgainFacts.

(** X11: the limit of [getRecentTasks] at its edges.  A negative limit does
    not give an empty list: it leaves out that many tasks at the old end of
    the sorted list.  A limit of zero gives the empty list, and a limit at
    or above the number of tasks gives them all. *)
Theorem getRecentTasks_limit_edges getTime limit s :
  (limit < 0 →
   (TaskStore.getRecentTasks getTime (Some limit) s).2 =
     take (length (TaskStore.tasks s) - Z.to_nat (- limit))
          (TaskStore.tasks (TaskStore.getRecentTasks getTime (Some limit) s).1)) ∧
  (TaskStore.getRecentTasks getTime (Some 0) s).2 = [] ∧
  (Z.of_nat (length (TaskStore.tasks s)) ≤ limit →
   (TaskStore.getRecentTasks getTime (Some limit) s).2 =
     TaskStore.tasks (TaskStore.getRecentTasks getTime (Some limit) s).1).
Proof.
  unfold TaskStore.getRecentTasks; simpl. split; [| split].
  - intros Hneg. rewrite slice0_negative by done. by rewrite length_sort_by.
  - by rewrite slice0_nonneg.
  - intros Hall. apply slice0_all. by rewrite length_sort_by.
Qed.

Lemma getRecentTasks_limit_edges_witness :
  (TaskStore.getRecentTasks Sample.sample_getTime (Some (-1))
     Sample.dated_store).2 =
    take (length (TaskStore.tasks Sample.dated_store) - Z.to_nat (- (-1)))
         (TaskStore.tasks
            (TaskStore.getRecentTasks Sample.sample_getTime (Some (-1))
               Sample.dated_store).1).
Proof.
  destruct (getRecentTasks_limit_edges Sample.sample_getTime (-1)
              Sample.dated_store) as (Hneg & _).
  apply Hneg. lia.
Defined.

Example getRecentTasks_minus_one :
  Task.id <$> (TaskStore.getRecentTasks Sample.sample_getTime (Some (-1))
                 Sample.dated_store).2 = ["t3"; "t2"].
Proof. vm_compute. reflexivity. Qed.

(** X12: when the creation dates parse, [getRecentTasks] can be repeated:
    on the store the first call left, a second call changes nothing more
    and returns what it would have returned on the store before. *)
Theorem getRecentTasks_repeatable getTime limit limit' s :
  (∀ t, t ∈ TaskStore.tasks s → is_Some (getTime (Task.created_at t))) →
  TaskStore.getRecentTasks getTime limit'
    (TaskStore.getRecentTasks getTime limit s).1 =
  ((TaskStore.getRecentTasks getTime limit s).1,
   (TaskStore.getRecentTasks getTime limit' s).2).
Proof.
  intros Hdated. unfold TaskStore.getRecentTasks; simpl.
  assert (sort_by (TaskStore.compareCreated getTime)
            (sort_by (TaskStore.compareCreated getTime) (TaskStore.tasks s)) =
          sort_by (TaskStore.compareCreated getTime) (TaskStore.tasks s))
    as ->; [| done].
  apply (sort_by_sorted _ (TaskStore.dated getTime)
           (TaskStore.recent_first getTime)).
  - apply compareCreated_recent_first.
  - rewrite (sort_by_Permutation _ (TaskStore.tasks s)).
    by apply Forall_forall.
  - apply sorted_tasks_recent_first. by apply Forall_forall.
Qed.

Lemma getRecentTasks_repeatable_witness :
  TaskStore.getRecentTasks Sample.sample_getTime None
    (TaskStore.getRecentTasks Sample.sample_getTime (Some 2)
       Sample.dated_store).1 =
  ((TaskStore.getRecentTasks Sample.sample_getTime (Some 2)
      Sample.dated_store).1,
   (TaskStore.getRecentTasks Sample.sample_getTime None
      Sample.dated_store).2).
Proof.
  apply (getRecentTasks_repeatable Sample.sample_getTime (Some 2) None
           Sample.dated_store).
  intros t Ht. simpl in Ht.
  repeat (apply elem_of_cons in Ht as [-> | Ht]; [by eexists |]).
  by apply elem_of_nil in Ht.
Defined.

(** X13: when the creation dates parse, the sort of [getRecentTasks], which
    is stable, keeps the tasks of one creation instant in the order they
    had in the store: for every instant, the tasks created at it read the
    same before and after. *)
Theorem getRecentTasks_keeps_ties getTime limit s k :
  (∀ t, t ∈ TaskStore.tasks s → is_Some (getTime (Task.created_at t))) →
  filter (λ t, getTime (Task.created_at t) = Some k)
         (TaskStore.tasks (TaskStore.getRecentTasks getTime limit s).1) =
  filter (λ t, getTime (Task.created_at t) = Some k) (TaskStore.tasks s).
Proof. intros _. apply filter_instant_sort_by. Qed.

Lemma getRecentTasks_keeps_ties_witness :
  filter (λ t, Sample.sample_getTime (Task.created_at t) = Some 1704067200000)
         (TaskStore.tasks
            (TaskStore.getRecentTasks Sample.sample_getTime None
               Sample.tied_store).1) =
  filter (λ t, Sample.sample_getTime (Task.created_at t) = Some 1704067200000)
         (TaskStore.tasks Sample.tied_store).
Proof.
  apply (getRecentTasks_keeps_ties Sample.sample_getTime None
           Sample.tied_store 1704067200000).
  intros t Ht. simpl in Ht.
  repeat (apply elem_of_cons in Ht as [-> | Ht]; [by eexists |]).
  by apply elem_of_nil in Ht.
Defined.

Example getRecentTasks_ties_sample :
  Task.id <$> (TaskStore.getRecentTasks Sample.sample_getTime None
                 Sample.tied_store).2 = ["t3"; "t1"; "t4"].
Proof. vm_compute. reflexivity. Qed.

(** ** Application store: removing notifications and their timers *)

Section NotificationFacts.
Import AppStore.

Lemma filter_id_twice id (l : list Notification.t) :
  filter (λ n, Notification.id n ≠ id) (filter (λ n, Notification.id n ≠ id) l)
  = filter (λ n, Notification.id n ≠ id) l.
Proof.
  induction l as [| x l IH]; [done |]. rewrite filter_cons.
  case_decide; [| done]. by rewrite filter_cons, decide_True, IH.
Qed.

Lemma filter_id_fresh id (l : list Notification.t) :
  (∀ x, x ∈ l → Notification.id x ≠ id) →
  filter (λ n, Notification.id n ≠ id) l = l.
Proof.
  induction l as [| x l IH]; intros Hfresh; [done |].
  rewrite filter_cons, decide_True, IH; [done | |].
  - intros y Hy. apply Hfresh. by right.
  - apply Hfresh. by left.
Qed.

Lemma with_notifications_same s : with_notifications (notifications s) s = s.
Proof. by destruct s. Qed.

Lemma addNotification_timer_id n now s t :
  (addNotification n now s).2 = Some t → timer_id t = pretty now.
Proof.
  unfold addNotification; simpl. case_decide; [| done]. by intros [= <-].
Qed.

Lemma duration_or_default_nonzero d : duration_or_default d ≠ 0.
Proof. unfold duration_or_default. destruct d as [v |]; [| done].
  by case_decide. Qed.
End NotificationFacts.

(** X14: [removeNotification] takes out every notification that has the
    id and no other, keeps the order of the rest and the flags of the
    store, and is idempotent; a timer firing does the same for its id. *)
Theorem removeNotification_by_id id t s :
  (∀ x, x ∈ AppStore.notifications (AppStore.removeNotification id s) ↔
        x ∈ AppStore.notifications s ∧ Notification.id x ≠ id) ∧
  AppStore.notifications (AppStore.removeNotification id s)
    `sublist_of` AppStore.notifications s ∧
  AppStore.removeNotification id (AppStore.removeNotification id s) =
    AppStore.removeNotification id s ∧
  AppStore.fire t s = AppStore.removeNotification (AppStore.timer_id t) s.
Proof.
  unfold AppStore.removeNotification, AppStore.fire; simpl.
  split; [| split; [| split; [| done]]].
  - intros x. rewrite list_elem_of_filter. tauto.
  - apply sublist_filter.
  - unfold AppStore.with_notifications; simpl. by rewrite filter_id_twice.
Qed.

(** X15: below capacity, and when no queued notification already has the id
    of the clock reading, adding a notification and then removing it by
    its id, or letting its timer fire, gives back the store as it was. *)
Theorem addNotification_then_remove n now s :
  (length (AppStore.notifications s) < AppStore.capacity)%nat →
  (∀ x, x ∈ AppStore.notifications s → Notification.id x ≠ pretty now) →
  AppStore.removeNotification (pretty now) (AppStore.addNotification n now s).1
    = s ∧
  (∀ t, (AppStore.addNotification n now s).2 = Some t →
        AppStore.fire t (AppStore.addNotification n now s).1 = s).
Proof.
  intros Hroom Hfresh.
  assert (AppStore.removeNotification (pretty now)
            (AppStore.addNotification n now s).1 = s) as Hback.
  { unfold AppStore.removeNotification.
    rewrite notifications_addNotification.
    unfold AppStore.capacity in *.
    rewrite take_ge by (simpl; lia).
    rewrite filter_cons, decide_False by (simpl; auto).
    rewrite filter_id_fresh by done.
    unfold AppStore.addNotification; simpl. by destruct s. }
  split; [done |]. intros t Ht. rewrite <- Hback at 2.
  unfold AppStore.addNotification in Ht; simpl in Ht.
  case_decide; [| done]. by injection Ht as <-.
Qed.

Lemma addNotification_then_remove_witness :
  AppStore.removeNotification (pretty 7)
    (AppStore.addNotification (Sample.sample_draft "third") 7
       Sample.short_queue).1 = Sample.short_queue ∧
  (∀ t, (AppStore.addNotification (Sample.sample_draft "third") 7
           Sample.short_queue).2 = Some t →
        AppStore.fire t
          (AppStore.addNotification (Sample.sample_draft "third") 7
             Sample.short_queue).1 = Sample.short_queue).
Proof.
  apply (addNotification_then_remove (Sample.sample_draft "third") 7
           Sample.short_queue).
  - vm_compute. lia.
  - intros x Hx. vm_compute in Hx.
    repeat (apply elem_of_cons in Hx as [-> | Hx]; [by vm_compute |]).
    by apply elem_of_nil in Hx.
Defined.

(** X16: the removal timer of [addNotification].  No timer is armed exactly
    when the draft carries a negative duration; an armed timer carries the
    id of the new notification and a positive delay; a draft without a
    duration, or with the duration zero, gets the delay 5000, so that a
    duration of zero does not keep a notification on the screen. *)
Theorem addNotification_timer n now s :
  ((AppStore.addNotification n now s).2 = None ↔
   ∃ d, Notification.d_duration n = Some d ∧ d < 0) ∧
  (∀ t, (AppStore.addNotification n now s).2 = Some t →
        AppStore.timer_id t = pretty now ∧
        Some (AppStore.timer_delay t) =
          Notification.duration (AppStore.newNotification n now) ∧
        0 < AppStore.timer_delay t) ∧
  (Notification.d_duration n = None ∨ Notification.d_duration n = Some 0 →
   (AppStore.addNotification n now s).2 =
     Some (AppStore.mkTimer (pretty now) 5000)).
Proof.
  unfold AppStore.addNotification, AppStore.newNotification,
    AppStore.duration_or_default; simpl.
  destruct (Notification.d_duration n) as [d |]; simpl.
  - destruct (decide (d = 0)) as [-> | Hd]; simpl.
    + split; [| split; [| done]].
      * split; [done |]. intros (d & [= <-] & Hneg). lia.
      * intros t [= <-]. simpl. repeat split; lia.
    + split; [| split].
      * case_decide as Hpos.
        -- split; [done |]. intros (d' & [= <-] & Hneg). lia.
        -- split; [| done]. intros _. exists d. split; [done | lia].
      * intros t. case_decide; [| done]. intros [= <-]. simpl.
        repeat split; lia.
      * intros [? | [= ->]]; done.
  - split; [| split; [| done]].
    + split; [done |]. by intros (d & ? & _).
    + intros t [= <-]. simpl. repeat split; lia.
Qed.

Lemma addNotification_timer_witness :
  (AppStore.addNotification
     (Notification.mkDraft Notification.warning "sticky" "stay" (Some 0)) 9
     Sample.short_queue).2 = Some (AppStore.mkTimer (pretty 9) 5000).
Proof.
  destruct (addNotification_timer
              (Notification.mkDraft Notification.warning "sticky" "stay"
                 (Some 0)) 9 Sample.short_queue) as (_ & _ & Hdefault).
  apply Hdefault. by right.
Defined.

(** X17: notification ids are clock readings.  The timer armed for one
    notification, when it fires, takes out every notification made at the
    same clock reading, whatever its content, and leaves in place every
    notification made at another clock reading. *)
Theorem timer_removes_by_clock_reading n n' n'' now now' s s' t :
  (AppStore.addNotification n now s).2 = Some t →
  (AppStore.newNotification n' now
     ∉ AppStore.notifications (AppStore.fire t s')) ∧
  (now' ≠ now →
   AppStore.newNotification n'' now' ∈ AppStore.notifications s' →
   AppStore.newNotification n'' now' ∈
     AppStore.notifications (AppStore.fire t s')).
Proof.
  intros Ht. apply addNotification_timer_id in Ht as Htid.
  unfold AppStore.fire; simpl. rewrite Htid. split.
  - rewrite list_elem_of_filter. intros [Hne _]. by apply Hne.
  - intros Hnow Hin. apply list_elem_of_filter. split; [| done].
    simpl. intros Heq. by apply (inj pretty) in Heq.
Qed.

Lemma timer_removes_by_clock_reading_witness :
  (AppStore.newNotification (Sample.sample_draft "other") 6 ∉
     AppStore.notifications
       (AppStore.fire (AppStore.mkTimer (pretty 6) 5000) Sample.short_queue)) ∧
  (5 ≠ 6 →
   AppStore.newNotification (Sample.sample_draft "first") 5 ∈
     AppStore.notifications Sample.short_queue →
   AppStore.newNotification (Sample.sample_draft "first") 5 ∈
     AppStore.notifications
       (AppStore.fire (AppStore.mkTimer (pretty 6) 5000) Sample.short_queue)).
Proof.
  apply (timer_removes_by_clock_reading (Sample.sample_draft "second")
           (Sample.sample_draft "other") (Sample.sample_draft "first") 6 5
           AppStore.initialState
           Sample.short_queue).
  reflexivity.
Defined.

(** ** WebSocket service: registering and unregistering *)

Section RegistryRoundTripFacts.
Import WebSocketService.
Context {Callback : Type} `{EqDecision Callback} {W : Type}.
Implicit Types s : @State Callback W.

Lemma indexOf_from_fresh_last (x : Callback) l k :
  x ∉ l → indexOf_from x (l ++ [x]) k = k + Z.of_nat (length l).
Proof.
  revert k. induction l as [| y l IH]; intros k Hx; simpl.
  - rewrite decide_True by done. lia.
  - apply not_elem_of_cons in Hx as [Hne Hx].
    rewrite decide_False by done. rewrite IH by done. lia.
Qed.

Lemma listeners_off_on event cb s :
  cb ∉ default [] (listeners s !! event) →
  listeners (off event (Some cb) (on event cb s)) =
    <[event := default [] (listeners s !! event)]> (listeners s).
Proof.
  intros Hfresh. unfold off, on; simpl. rewrite lookup_insert_eq.
  unfold indexOf. rewrite indexOf_from_fresh_last by done.
  rewrite decide_True by lia. simpl.
  replace (Z.to_nat (0 + Z.of_nat (length (default [] (listeners s !! event)))))
    with (length (default [] (listeners s !! event))) by lia.
  rewrite delete_middle, app_nil_r. by rewrite insert_insert_eq.
Qed.
End RegistryRoundTripFacts.

(** X18: registering a callback that is not yet registered for the event
    and taking it out again restores the registry when the event already
    had an entry; when it had none, an entry with an empty array is left
    behind. *)
Theorem off_after_on
    {Callback : Type} `{EqDecision Callback} {W : Type}
    event (cb : Callback) (s : @WebSocketService.State Callback W) :
  cb ∉ default [] (WebSocketService.listeners s !! event) →
  (is_Some (WebSocketService.listeners s !! event) →
   WebSocketService.off event (Some cb) (WebSocketService.on event cb s) = s) ∧
  (WebSocketService.listeners s !! event = None →
   WebSocketService.listeners
     (WebSocketService.off event (Some cb) (WebSocketService.on event cb s))
   = <[event := []]> (WebSocketService.listeners s)).
Proof.
  intros Hfresh. pose proof (listeners_off_on event cb s Hfresh) as Hls.
  split.
  - intros [l Hl]. rewrite Hl in Hls. simpl in Hls.
    rewrite insert_id in Hls by done.
    assert (∀ s1 s2 : @WebSocketService.State Callback W,
              WebSocketService.socket s1 = WebSocketService.socket s2 →
              WebSocketService.reconnectAttempts s1
                = WebSocketService.reconnectAttempts s2 →
              WebSocketService.listeners s1 = WebSocketService.listeners s2 →
              WebSocketService.console s1 = WebSocketService.console s2 →
              WebSocketService.calls s1 = WebSocketService.calls s2 →
              WebSocketService.world s1 = WebSocketService.world s2 →
              s1 = s2) as Hext.
    { intros [] []; simpl; congruence. }
    apply Hext; try done;
      unfold WebSocketService.off, WebSocketService.on; simpl;
      rewrite lookup_insert_eq; by case_decide.
  - intros Hnone. by rewrite Hls, Hnone.
Qed.

Lemma off_after_on_witness :
  WebSocketService.off "task_update" (Some 9%nat)
    (WebSocketService.on "task_update" 9%nat Sample.connected_service)
  = Sample.connected_service.
Proof.
  destruct (off_after_on "task_update" 9%nat Sample.connected_service)
    as (Hback & _).
  - vm_compute. intros Hin.
    repeat (apply elem_of_cons in Hin as [Hin | Hin]; [discriminate |]).
    by apply elem_of_nil in Hin.
  - apply Hback. vm_compute. by eexists.
Defined.

(** With the callback registered before, [off] takes out the earliest
    registration, and the order of the callbacks is not what it was. *)
Example off_after_on_registered :
  WebSocketService.listeners
    (WebSocketService.off "task_update" (Some 1%nat)
       (WebSocketService.on "task_update" 1%nat Sample.connected_service))
    !! "task_update" = Some [2%nat; 3%nat; 1%nat].
Proof. vm_compute. reflexivity. Qed.

(** X19: the [listeners] figure of [getConnectionStats] counts the events
    that have an entry in the registry, not the callbacks: [on] raises it
    by one for an event without entry and leaves it otherwise, [off] with a
    callback never changes it, also when it takes out the last callback of
    an event, and [off] without a callback lowers it by one for an event
    with an entry. *)
Theorem stat_listeners_counts_events
    {Callback : Type} `{EqDecision Callback} {W : Type}
    event (cb : Callback) (s : @WebSocketService.State Callback W) :
  WebSocketService.stat_listeners
    (WebSocketService.getConnectionStats (WebSocketService.on event cb s)) =
    match WebSocketService.listeners s !! event with
    | Some _ => WebSocketService.stat_listeners
                  (WebSocketService.getConnectionStats s)
    | None => S (WebSocketService.stat_listeners
                   (WebSocketService.getConnectionStats s))
    end ∧
  WebSocketService.stat_listeners
    (WebSocketService.getConnectionStats
       (WebSocketService.off event (Some cb) s)) =
    WebSocketService.stat_listeners (WebSocketService.getConnectionStats s) ∧
  WebSocketService.stat_listeners
    (WebSocketService.getConnectionStats (WebSocketService.off event None s)) =
    match WebSocketService.listeners s !! event with
    | Some _ => pred (WebSocketService.stat_listeners
                        (WebSocketService.getConnectionStats s))
    | None => WebSocketService.stat_listeners
                (WebSocketService.getConnectionStats s)
    end.
Proof.
  unfold WebSocketService.getConnectionStats, WebSocketService.on,
    WebSocketService.off; simpl.
  split; [| split].
  - rewrite map_size_insert. by destruct (_ !! event).
  - destruct (WebSocketService.listeners s !! event) as [l |] eqn:Hl; [| done].
    case_decide; [| done]. simpl. by rewrite map_size_insert, Hl.
  - destruct (WebSocketService.listeners s !! event) as [l |] eqn:Hl; [| done].
    simpl. by rewrite map_size_delete, Hl.
Qed.

(** After the only callback of an event is taken out the event still
    counts. *)
Example stat_listeners_after_last_off :
  WebSocketService.stat_listeners
    (WebSocketService.getConnectionStats
       (WebSocketService.off "task_update" (Some 2%nat)
          Sample.disconnected_service)) = 1%nat.
Proof. vm_compute. reflexivity. Qed.

(** ** WebSocket service: the life cycle of the connection *)

Section LifecycleFacts.
Import WebSocketService.
Context {Callback : Type} `{EqDecision Callback} {W : Type}.
Variable run : Callback → Payload → W → @Reaction Callback W.
Implicit Types s : @State Callback W.

Lemma socket_disconnect_attempts fired s :
  reconnectAttempts s = 0 →
  reconnectAttempts (socket_disconnect run fired s) = 0.
Proof.
  intros Hzero. unfold socket_disconnect. destruct (socket s); [| done].
  by apply receive_all_frame.
Qed.

Lemma exec_attempts c s :
  reconnectAttempts s = 0 → reconnectAttempts (exec run s c) = 0.
Proof.
  intros Hzero. destruct c; simpl.
  - done.
  - pose proof (registry_call_frame (reg_off event callback) s)
      as (_ & Hoff & _).
    simpl in Hoff. by rewrite Hoff.
  - by destruct (send_spec event data s) as (_ & _ & _ & -> & _).
  - unfold subscribeToTask.
    by destruct (send_spec "subscribe_task" (TaskRef taskId) s)
      as (_ & _ & _ & -> & _).
  - unfold unsubscribeFromTask.
    by destruct (send_spec "unsubscribe_task" (TaskRef taskId) s)
      as (_ & _ & _ & -> & _).
  - unfold reconnect. simpl. by apply socket_disconnect_attempts.
  - unfold disconnect. simpl. destruct (socket s); [| done].
    simpl. by apply socket_disconnect_attempts.
  - by apply receive_frame.
Qed.


(** What a dispatch does to the registry, the calls and the state of the
    listeners is decided by these three alone. *)
Lemma registry_call_sim c s1 s2 :
  listeners s1 = listeners s2 →
  listeners (registry_call c s1) = listeners (registry_call c s2).
Proof.
  intros Hls. destruct c as [event cb | event cb]; simpl.
  - unfold on. simpl. by rewrite Hls.
  - unfold off. rewrite Hls. destruct (listeners s2 !! event); [| done].
    destruct cb; simpl; [| by rewrite ?Hls].
    case_decide; simpl; by rewrite ?Hls.
Qed.

Lemma apply_calls_sim event cs detached s1 s2 :
  listeners s1 = listeners s2 →
  (apply_calls event cs detached s1).1 = (apply_calls event cs detached s2).1 ∧
  listeners (apply_calls event cs detached s1).2
    = listeners (apply_calls event cs detached s2).2.
Proof.
  revert detached s1 s2.
  induction cs as [| c cs IH]; intros detached s1 s2 Hls; [done |].
  simpl. rewrite Hls. apply IH. by apply registry_call_sim.
Qed.

Lemma call_listener_sim event data detached s1 s2 cb :
  listeners s1 = listeners s2 → calls s1 = calls s2 → world s1 = world s2 →
  (call_listener run event data detached s1 cb).1
    = (call_listener run event data detached s2 cb).1 ∧
  listeners (call_listener run event data detached s1 cb).2
    = listeners (call_listener run event data detached s2 cb).2 ∧
  calls (call_listener run event data detached s1 cb).2
    = calls (call_listener run event data detached s2 cb).2 ∧
  world (call_listener run event data detached s1 cb).2
    = world (call_listener run event data detached s2 cb).2.
Proof.
  intros Hls Hcalls Hworld.
  destruct (call_listener_frame run event data detached s1 cb)
    as (_ & _ & -> & ->).
  destruct (call_listener_frame run event data detached s2 cb)
    as (_ & _ & -> & ->).
  rewrite Hcalls, Hworld. split; [| split; [| done]].
  - unfold call_listener. simpl. rewrite Hworld. by apply apply_calls_sim.
  - unfold call_listener. simpl. rewrite Hworld.
    destruct (outcome (run cb data (world s2))); simpl;
      by apply apply_calls_sim.
Qed.

Lemma forEach_sim event data n k detached s1 s2 :
  listeners s1 = listeners s2 → calls s1 = calls s2 → world s1 = world s2 →
  listeners (forEach run event data n k detached s1)
    = listeners (forEach run event data n k detached s2) ∧
  calls (forEach run event data n k detached s1)
    = calls (forEach run event data n k detached s2) ∧
  world (forEach run event data n k detached s1)
    = world (forEach run event data n k detached s2).
Proof.
  revert k detached s1 s2.
  induction n as [| n IH]; intros k detached s1 s2 Hls Hcalls Hworld;
    [done |].
  rewrite !forEach_S. unfold walked. rewrite Hls.
  destruct (match detached with
            | Some callbacks => callbacks
            | None => default [] (listeners s2 !! event)
            end !! k) as [cb |]; [| by apply IH].
  destruct (call_listener_sim event data detached s1 s2 cb Hls Hcalls Hworld)
    as (-> & Hls' & Hcalls' & Hworld').
  by apply IH.
Qed.

Lemma receive_sim ev s1 s2 :
  listeners s1 = listeners s2 → calls s1 = calls s2 → world s1 = world s2 →
  (is_Some (socket s1) ↔ is_Some (socket s2)) →
  listeners (receive run s1 ev) = listeners (receive run s2 ev) ∧
  calls (receive run s1 ev) = calls (receive run s2 ev) ∧
  world (receive run s1 ev) = world (receive run s2 ev) ∧
  (is_Some (socket (receive run s1 ev)) ↔ is_Some (socket (receive run s2 ev))).
Proof.
  intros Hls Hcalls Hworld Hsock.
  assert (is_Some (socket (receive run s1 ev))
          ↔ is_Some (socket (receive run s2 ev))) as Hsock'.
  { destruct (receive_frame run ev s1) as (-> & _).
    destruct (receive_frame run ev s2) as (-> & _).
    rewrite !fmap_is_Some. done. }
  split; [| split; [| split; [| done]]];
    unfold receive;
    destruct (socket s1) as [sock1 |] eqn:H1,
             (socket s2) as [sock2 |] eqn:H2;
    try done;
    try (exfalso; destruct Hsock as [Hl Hr];
         first [by destruct (Hl ltac:(eauto)) | by destruct (Hr ltac:(eauto))]);
    destruct (handler_emit run ev (with_socket (Some (socket_flag ev sock1)) s1))
      as (a & -> & Hac & Hal & _ & Haw & _);
    destruct (handler_emit run ev (with_socket (Some (socket_flag ev sock2)) s2))
      as (b & -> & Hbc & Hbl & _ & Hbw & _);
    simpl in *;
    assert (listeners a = listeners b) as Hlab by congruence;
    assert (calls a = calls b) as Hcab by congruence;
    assert (world a = world b) as Hwab by congruence;
    unfold emit; rewrite Hlab;
    (destruct (listeners b !! (forwarded ev).1) as [callbacks |]; [| done]);
    by apply forEach_sim.
Qed.

Lemma receive_all_sim evs s1 s2 :
  listeners s1 = listeners s2 → calls s1 = calls s2 → world s1 = world s2 →
  (is_Some (socket s1) ↔ is_Some (socket s2)) →
  calls (receive_all run evs s1) = calls (receive_all run evs s2).
Proof.
  revert s1 s2. induction evs as [| ev evs IH];
    intros s1 s2 Hls Hcalls Hworld Hsock; [done |].
  unfold receive_all in *. simpl.
  destruct (receive_sim ev s1 s2 Hls Hcalls Hworld Hsock)
    as (Hls' & Hcalls' & Hworld' & Hsock').
  by apply IH.
Qed.
End LifecycleFacts.

(** X20: when the callbacks concerned make no call to [on] or [off] while
    an event is dispatched to them, a callback registered with [on] is
    called by the next [emit] of its event, after the callbacks registered
    before it, and is not called for another event.  After [off] without a
    callback an [emit] of the event calls nobody and changes nothing. *)
Theorem emit_after_registration
    {Callback : Type} `{EqDecision Callback} {W : Type}
    (run : Callback → WebSocketService.Payload → W
           → @WebSocketService.Reaction Callback W)
    event event' data (cb : Callback) (s : @WebSocketService.State Callback W) :
  (WebSocketService.quiet run data
     (default [] (WebSocketService.listeners s !! event) ++ [cb]) →
   WebSocketService.calls
     (WebSocketService.emit run event data (WebSocketService.on event cb s)) =
     WebSocketService.calls s ++
     ((λ c, (c, data)) <$> default [] (WebSocketService.listeners s !! event))
     ++ [(cb, data)]) ∧
  (event' ≠ event →
   WebSocketService.quiet run data
     (default [] (WebSocketService.listeners s !! event')) →
   WebSocketService.calls
     (WebSocketService.emit run event' data (WebSocketService.on event cb s)) =
   WebSocketService.calls (WebSocketService.emit run event' data s)) ∧
  WebSocketService.emit run event data (WebSocketService.off event None s) =
    WebSocketService.off event None s.
Proof.
  split; [| split].
  - intros Hquiet.
    destruct (emit_quiet run event data (WebSocketService.on event cb s))
      as (-> & _).
    + unfold WebSocketService.on; simpl. by rewrite lookup_insert_eq.
    + unfold WebSocketService.on; simpl. rewrite lookup_insert_eq. simpl.
      by rewrite fmap_app.
  - intros Hne Hquiet.
    destruct (emit_quiet run event' data (WebSocketService.on event cb s))
      as (-> & _).
    + unfold WebSocketService.on; simpl. by rewrite lookup_insert_ne.
    + destruct (emit_quiet run event' data s Hquiet) as (-> & _).
      unfold WebSocketService.on; simpl. by rewrite lookup_insert_ne.
  - apply emit_unregistered. unfold WebSocketService.off.
    destruct (WebSocketService.listeners s !! event) eqn:Hl; [| done].
    simpl. apply lookup_delete_eq.
Qed.

Lemma emit_after_registration_witness :
  WebSocketService.calls
    (WebSocketService.emit Sample.quiet_run "task_update"
       Sample.completed_update
       (WebSocketService.on "task_update" 9%nat Sample.connected_service)) =
    WebSocketService.calls Sample.connected_service ++
    ((λ c, (c, Sample.completed_update)) <$>
       default []
         (WebSocketService.listeners Sample.connected_service
            !! "task_update"))
    ++ [(9%nat, Sample.completed_update)].
Proof.
  destruct (emit_after_registration Sample.quiet_run "task_update" "task_log"
              Sample.completed_update 9%nat Sample.connected_service)
    as (Hlast & _).
  apply Hlast. intros c w _. unfold Sample.quiet_run. by case_decide.
Defined.

(** X21: the reconnect counter of the service is never raised: after any
    history of method calls and socket events on a service made by the
    constructor, [getConnectionStats] reports [reconnectAttempts] as 0. *)
Theorem reconnectAttempts_always_zero
    {Callback : Type} `{EqDecision Callback} {W : Type}
    (run : Callback → WebSocketService.Payload → W
           → @WebSocketService.Reaction Callback W)
    (history : list (@WebSocketService.Call Callback)) (w : W) :
  WebSocketService.stat_reconnectAttempts
    (WebSocketService.getConnectionStats
       (WebSocketService.after run history w)) = 0.
Proof.
  unfold WebSocketService.getConnectionStats, WebSocketService.after; simpl.
  induction history as [| c history IH] using rev_ind; [done |].
  rewrite foldl_app. simpl. by apply exec_attempts.
Qed.

(** X22: a message handed to [send] while the socket is not connected is
    dropped for good: whatever the socket fires afterwards, a later
    [connect] included, what has been handed to the socket stays what it
    was. *)
Theorem send_while_disconnected_is_lost
    {Callback : Type} `{EqDecision Callback} {W : Type}
    (run : Callback → WebSocketService.Payload → W
           → @WebSocketService.Reaction Callback W)
    event data evs (s : @WebSocketService.State Callback W) :
  WebSocketService.isConnected s = false →
  WebSocketService.emitted <$>
    WebSocketService.socket
      (WebSocketService.receive_all run evs
         (WebSocketService.send event data s)) =
  WebSocketService.emitted <$> WebSocketService.socket s.
Proof.
  intros Hoff.
  destruct (receive_all_frame run evs (WebSocketService.send event data s))
    as (-> & _).
  unfold WebSocketService.isConnected, WebSocketService.send in *.
  by destruct (WebSocketService.socket s) as [[[] sent] |] eqn:Hs; simpl;
    rewrite ?Hs.
Qed.

Lemma send_while_disconnected_is_lost_witness :
  WebSocketService.emitted <$>
    WebSocketService.socket
      (WebSocketService.receive_all Sample.sample_run
         [WebSocketService.ev_connect]
         (WebSocketService.send "subscribe_task"
            (WebSocketService.TaskRef "t1") Sample.disconnected_service)) =
  WebSocketService.emitted <$>
    WebSocketService.socket Sample.disconnected_service.
Proof.
  apply (send_while_disconnected_is_lost Sample.sample_run "subscribe_task"
           (WebSocketService.TaskRef "t1") [WebSocketService.ev_connect]
           Sample.disconnected_service).
  reflexivity.
Defined.



(** X24: [unsubscribeFromTask] only tells the server: on a connected socket
    it hands one [unsubscribe_task] message with the task id to the socket,
    after the [subscribe_task] message of an earlier [subscribeToTask]; the
    registry is left as it is, so the listeners are called for the events
    the socket fires afterwards just as if the call had not been made. *)
Theorem unsubscribeFromTask_keeps_listeners
    {Callback : Type} `{EqDecision Callback} {W : Type}
    (run : Callback → WebSocketService.Payload → W
           → @WebSocketService.Reaction Callback W)
    taskId incoming (s : @WebSocketService.State Callback W) :
  WebSocketService.listeners (WebSocketService.unsubscribeFromTask taskId s)
    = WebSocketService.listeners s ∧
  WebSocketService.calls
    (WebSocketService.receive_all run incoming
       (WebSocketService.unsubscribeFromTask taskId s)) =
    WebSocketService.calls (WebSocketService.receive_all run incoming s) ∧
  (WebSocketService.isConnected s = true →
   WebSocketService.emitted <$>
     WebSocketService.socket
       (WebSocketService.unsubscribeFromTask taskId
          (WebSocketService.subscribeToTask taskId s)) =
   (λ sock, WebSocketService.emitted sock ++
              [("subscribe_task", WebSocketService.TaskRef taskId);
               ("unsubscribe_task", WebSocketService.TaskRef taskId)]) <$>
     WebSocketService.socket s) ∧
  (WebSocketService.isConnected s = false →
   WebSocketService.socket (WebSocketService.unsubscribeFromTask taskId s)
     = WebSocketService.socket s).
Proof.
  destruct (send_spec "unsubscribe_task" (WebSocketService.TaskRef taskId) s)
    as (Hcalls & Hls & Hworld & _ & Hsock).
  split; [done |]. split; [| split].
  - by apply receive_all_sim.
  - unfold WebSocketService.isConnected, WebSocketService.unsubscribeFromTask,
      WebSocketService.subscribeToTask, WebSocketService.send.
    destruct (WebSocketService.socket s) as [[[] sent] |] eqn:Hs; simpl;
      [| done | done].
    intros _. by rewrite <- app_assoc.
  - unfold WebSocketService.isConnected, WebSocketService.unsubscribeFromTask,
      WebSocketService.send.
    by destruct (WebSocketService.socket s) as [[[] sent] |] eqn:Hs; simpl;
      rewrite ?Hs.
Qed.

Lemma unsubscribeFromTask_keeps_listeners_witness :
  WebSocketService.emitted <$>
    WebSocketService.socket
      (WebSocketService.unsubscribeFromTask "t1"
         (WebSocketService.subscribeToTask "t1" Sample.connected_service)) =
  (λ sock, WebSocketService.emitted sock ++
             [("subscribe_task", WebSocketService.TaskRef "t1");
              ("unsubscribe_task", WebSocketService.TaskRef "t1")]) <$>
    WebSocketService.socket Sample.connected_service.
Proof.
  destruct (unsubscribeFromTask_keeps_listeners Sample.sample_run "t1" []
              Sample.connected_service) as (_ & _ & Hconnected & _).
  apply Hconnected. reflexivity.
Defined.

(** After [unsubscribeFromTask] an update of the task that the socket still
    fires reaches the listeners. *)
Example update_after_unsubscribe :
  (WebSocketService.calls
     (WebSocketService.receive_all Sample.sample_run
        [WebSocketService.ev_task_update
           (TaskUpdateMessage.mk "t1" COMPLETED 100 None)]
        (WebSocketService.unsubscribeFromTask "t1"
           Sample.connected_service))).*1 = [1%nat; 2%nat; 3%nat].
Proof. vm_compute. reflexivity. Qed.


(** On a connected socket a reserved event name is refused by the socket:
    nothing is handed over and the error leaves [send]. *)
Example send_reserved_event_sample :
  WebSocketService.send "connect" (WebSocketService.Other "{}")
    Sample.connected_service = Sample.connected_service ∧
  WebSocketService.send_outcome "connect" Sample.connected_service =
    WebSocketService.Threw
      (WebSocketService.quote +:+ "connect" +:+ WebSocketService.quote
         +:+ " is a reserved event name") ∧
  WebSocketService.send_outcome "subscribe_task" Sample.connected_service =
    WebSocketService.Returned.
Proof. repeat split; reflexivity. Qed.
